(** * The BigQuery query text editor: diagnostics and job life cycle

    A shallow embedding of
    [jupyterlab_bigquery/src/components/query_editor/query_text_editor/query_text_editor.tsx].

    The first half embeds the two error handlers [handleNotFound] and
    [handleSyntaxError] together with the JavaScript string primitives they
    call.  The second half embeds the component as a transition system over
    an explicit world (component state, editor buffer, marker set, timer
    queue, request log).

    Conventions.
    - A JavaScript string is a [string]: a sequence of code units, here
      restricted to the range 0..255.
    - A JavaScript number that the code computes from indices and lengths is
      an integer; it is a [Z].  [NaN] and [undefined] are separate values of
      [jsnum].  Doubles are exact on integers below 2^53, and the sign of
      zero is not tracked.
    - An abrupt completion (an exception) is the [Throw] case of
      [completion].  The two handlers are [async] functions without any
      [await]: their body runs at once, and a [Throw] of the body is what
      the caller receives as a rejected promise. *)

From Stdlib Require Import ZArith Lia Bool Ascii String List.
From stdpp Require Import base tactics option list strings gmap.

Set Warnings "-register-all".

Local Open Scope string_scope.
Local Open Scope Z_scope.

(** ** Abrupt completions *)

Inductive error := TypeError | SyntaxError.

Inductive completion (A : Type) :=
| Normal (a : A)
| Throw (e : error).
Arguments Normal {A} a.
Arguments Throw {A} e.

#[export] Instance completion_bind : MBind completion :=
  fun A B (k : A -> completion B) (c : completion A) =>
    match c with
    | Normal a => k a
    | Throw e => Throw e
    end.

#[export] Instance completion_ret : MRet completion := fun A a => Normal a.

(** Calling a method on the result of an array access: [undefined.m(...)]
    raises a [TypeError]. *)
Definition deref {A} (o : option A) : completion A :=
  match o with
  | Some a => Normal a
  | None => Throw TypeError
  end.

(** ** JavaScript string primitives *)

Module JS.

(** [WhiteSpace] and [LineTerminator] code units below 256: TAB, LF, VT, FF,
    CR, SP and NBSP. *)
Definition isWhiteSpace (c : ascii) : bool :=
  let n := N_of_ascii c in
  ((9 <=? n) && (n <=? 13) || (n =? 32) || (n =? 160))%N.

Fixpoint trimStart (s : string) : string :=
  match s with
  | String c r => if isWhiteSpace c then trimStart r else s
  | EmptyString => EmptyString
  end.

Fixpoint trimEnd (s : string) : string :=
  match s with
  | EmptyString => EmptyString
  | String c r =>
      match trimEnd r with
      | EmptyString => if isWhiteSpace c then EmptyString else String c EmptyString
      | r' => String c r'
      end
  end.

(** [s.trim()] *)
Definition trim (s : string) : string := trimEnd (trimStart s).

(** [s.startsWith(p)] *)
Definition startsWith (s p : string) : bool := String.prefix p s.

(** [s.length] *)
Definition len (s : string) : Z := Z.of_nat (String.length s).

(** [s.split(sep)] for a separator of one code unit; the result is never
    empty. *)
Fixpoint split (sep : ascii) (s : string) : list string :=
  match s with
  | EmptyString => [EmptyString]
  | String c r =>
      if Ascii.eqb c sep then EmptyString :: split sep r
      else match split sep r with
           | h :: t => String c h :: t
           | [] => [String c EmptyString]
           end
  end.

(** [a.pop()]: the last element, [undefined] on the empty array. *)
Definition pop (a : list string) : option string := last a.

(** [s.indexOf(needle)], [-1] when there is no occurrence. *)
Fixpoint indexOf_from (i : Z) (s needle : string) : Z :=
  if String.prefix needle s then i
  else match s with
       | EmptyString => -1
       | String _ r => indexOf_from (i + 1) r needle
       end.

Definition indexOf (s needle : string) : Z := indexOf_from 0 s needle.

(** [s.lastIndexOf(needle)], [-1] when there is no occurrence. *)
Fixpoint lastIndexOf_from (i : Z) (s needle : string) : Z :=
  let later :=
    match s with
    | EmptyString => -1
    | String _ r => lastIndexOf_from (i + 1) r needle
    end in
  if later =? -1 then (if String.prefix needle s then i else -1) else later.

Definition lastIndexOf (s needle : string) : Z := lastIndexOf_from 0 s needle.

(** Numbers as the handlers see them. *)
Inductive jsnum :=
| Undefined
| NaN
| Num (z : Z).

(** [ToIntegerOrInfinity] followed by the clamp of [substring] to
    [0 .. s.length]: [undefined] and [NaN] count as [0]. *)
Definition clamp (s : string) (n : jsnum) : nat :=
  match n with
  | Num z => Z.to_nat (Z.min (Z.max z 0) (len s))
  | _ => O
  end.

(** [s.substring(a, b)]: both ends clamped, then swapped when [a > b]. *)
Definition substring (s : string) (a b : jsnum) : string :=
  let a' := clamp s a in
  let b' := clamp s b in
  String.substring (Nat.min a' b') (Nat.max a' b' - Nat.min a' b') s.

(** [s.substring(a)] *)
Definition substring1 (s : string) (a : jsnum) : string :=
  substring s a (Num (len s)).

(** [x + y] and [x - y] on numbers. *)
Definition add (x y : jsnum) : jsnum :=
  match x, y with
  | Num a, Num b => Num (a + b)
  | _, _ => NaN
  end.

Definition sub (x y : jsnum) : jsnum :=
  match x, y with
  | Num a, Num b => Num (a - b)
  | _, _ => NaN
  end.

Definition digit (c : ascii) : option Z :=
  let n := N_of_ascii c in
  if ((48 <=? n) && (n <=? 57))%N then Some (Z.of_N n - 48) else None.

(** The longest prefix of decimal digits, read left to right; [None] when
    the string does not start with a digit. *)
Fixpoint digits (acc : option Z) (s : string) : option Z :=
  match s with
  | EmptyString => acc
  | String c r =>
      match digit c with
      | Some d => digits (Some (10 * default 0 acc + d)) r
      | None => acc
      end
  end.

(** [parseInt(s, 10)]: leading white space is skipped, one sign is read,
    then as many digits as there are; [NaN] when there is none.  The result
    is the exact integer; it is the code's number as long as its magnitude
    is at most 2^53, beyond which the code rounds to a double. *)
Definition parseInt (s : string) : jsnum :=
  let s := trimStart s in
  let '(sign, s) :=
    match s with
    | String "-" r => (-1, r)
    | String "+" r => (1, r)
    | _ => (1, s)
    end in
  match digits None s with
  | Some n => Num (sign * n)
  | None => NaN
  end.

(** [a[i]] for a number [i]: [undefined] unless [i] is an index of [a]. *)
Definition index {A} (a : list A) (i : jsnum) : option A :=
  match i with
  | Num z => if 0 <=? z then a !! Z.to_nat z else None
  | _ => None
  end.

End JS.

(** The line feed, the separator of [model.getValue().split('\n')]. *)
Definition LF : ascii := ascii_of_nat 10.

(** ** Markers *)

Module MarkerSeverity.
Inductive t := Hint | Info | Warning | Error.
End MarkerSeverity.

Record IMarkerData := {
  startLineNumber : JS.jsnum;
  endLineNumber : JS.jsnum;
  startColumn : JS.jsnum;
  endColumn : JS.jsnum;
  message : string;
  severity : MarkerSeverity.t;
}.

(** ** The two handlers

    Each handler takes the raw response and the value of the editor's model.
    [Normal None] is the early [return]; [Normal (Some d)] is the call
    [setModelMarkers(model, 'owner', [d])]; [Throw e] is the rejection. *)

(** The [for] loop of [handleNotFound]: [i] is the loop counter, [line] and
    [pos] the two variables it assigns. *)
Fixpoint scan (errStr : string) (texts : list string) (i line pos : Z) : Z * Z :=
  match texts with
  | [] => (line, pos)
  | text :: rest =>
      let indx := JS.indexOf text errStr in
      if negb (indx =? -1) then scan errStr rest (i + 1) (i + 1) indx
      else scan errStr rest (i + 1) line pos
  end.

Definition handleNotFound (response value : string) : completion (option IMarkerData) :=
  let prompt := "Not found:" in
  let response := JS.trim response in
  if negb (JS.startsWith response prompt) then Normal None
  else
    let body := response in
    token ← deref (JS.split " " response !! 3%nat);
    errStr ← deref (JS.pop (JS.split ":" token));
    let texts := JS.split LF value in
    let '(line, pos) := scan errStr texts 0 (-1) (-1) in
    let startPos := pos in
    let endPos := pos + JS.len errStr in
    Normal (Some {| startLineNumber := JS.Num line;
                    endLineNumber := JS.Num line;
                    startColumn := JS.Num startPos;
                    endColumn := JS.Num endPos;
                    message := body;
                    severity := MarkerSeverity.Error |}).

(** The locator of a syntax error: the text between the last bracket pair
    is split at colons, every piece goes through [parseInt], and the first
    two results are [line] and [pos]; a missing one is [undefined]. *)
Definition locator (response : string) : JS.jsnum * JS.jsnum :=
  let posStr :=
    JS.substring response (JS.Num (JS.lastIndexOf response "[" + 1))
                 (JS.Num (JS.lastIndexOf response "]")) in
  let nums := map JS.parseInt (JS.split ":" posStr) in
  (default JS.Undefined (nums !! 0%nat), default JS.Undefined (nums !! 1%nat)).

Definition handleSyntaxError (response value : string) : completion (option IMarkerData) :=
  let prompt := "Syntax error:" in
  let response := JS.trim response in
  if negb (JS.startsWith response prompt) then Normal None
  else
    let body :=
      JS.substring response (JS.Num (JS.len prompt))
                   (JS.Num (JS.lastIndexOf response "at")) in
    let '(line, pos) := locator response in
    text ← deref (JS.index (JS.split LF value) (JS.sub line (JS.Num 1)));
    let startPos := pos in
    let errLen := JS.indexOf (JS.substring1 text pos) " " in
    let endPos :=
      if negb (errLen =? -1) then JS.add (JS.add (JS.Num errLen) pos) (JS.Num 1)
      else JS.Num (JS.len text + 1) in
    Normal (Some {| startLineNumber := line;
                    endLineNumber := line;
                    startColumn := startPos;
                    endColumn := endPos;
                    message := body;
                    severity := MarkerSeverity.Error |}).

(** The failure callback of [checkSQL] calls both handlers in turn.  A
    handler that rejects or returns early leaves the markers as they are;
    the other one replaces them by its single marker. *)
Definition applyHandler (r : completion (option IMarkerData))
    (markers : list IMarkerData) : list IMarkerData :=
  match r with
  | Normal (Some d) => [d]
  | _ => markers
  end.

Definition onValidationFail (res value : string)
    (markers : list IMarkerData) : list IMarkerData :=
  applyHandler (handleNotFound res value)
    (applyHandler (handleSyntaxError res value) markers).

(** ** The component *)

Module ButtonStates.
Inductive t := READY | PENDING | ERROR.
End ButtonStates.

Module JobState.
Inductive t := Pending | Fail | Done.
End JobState.

(** The values [JSON.parse] produces.  A number is kept as mantissa and
    decimal exponent. *)
Inductive json :=
| JNull
| JBool (b : bool)
| JNumber (mantissa exponent : Z)
| JString (s : string)
| JArray (elements : list json)
| JObject (members : list (string * json)).

Definition QueryId := string.

Record QueryTextEditorState := {
  buttonState : ButtonStates.t;
  bytesProcessed : option json;
  errorMsg : option string;
}.

Record QueryTextEditorProps := {
  props_queryId : QueryId;
  iniQuery : option string;
  queryFlags : option (list (string * json));
}.

(** The response of a page, every field still in its wire encoding. *)
Record QueryResponseType := {
  resp_content : string;
  resp_labels : string;
  resp_bytesProcessed : string;
}.

Record QueryResult := {
  content : json;
  labels : json;
  res_bytesProcessed : json;
  res_queryId : QueryId;
}.

Record QueryRequestBodyType := {
  query : string;
  jobConfig : option (list (string * json));
  dryRunOnly : bool;
}.

(** The three action creators the component receives from the store. *)
Inductive Action :=
| updateQueryResult (r : QueryResult)
| resetQueryResult (id : QueryId)
| deleteQueryEntry (id : QueryId).

(** What the polling client passes to a callback: the job state and the
    response, an object for a page and the error text for a failure. *)
Inductive Update :=
| UPending (response : QueryResponseType)
| UFail (response : string)
| UDone.

Definition jobState (u : Update) : JobState.t :=
  match u with
  | UPending _ => JobState.Pending
  | UFail _ => JobState.Fail
  | UDone => JobState.Done
  end.

(** The two callbacks the component hands to [pagedQueryService.request]:
    the one of [handleQuery] and the one of [checkSQL]. *)
Inductive Callback := QueryCallback | CheckCallback.

Inductive JobStatus := Running | Cancelled | Finished.

(** A job of the polling client; its handle is its position in [jobs]. *)
Record PagedJob := {
  request : QueryRequestBodyType;
  callback : Callback;
  pollInterval : option Z;
  status : JobStatus;
}.

(** The two functions the component passes to [setTimeout]: [checkSQL] and
    the arrow function that resets the button. *)
Inductive TimerCallback := CheckSQL | ResetButton.

Record Timer := {
  timerId : nat;
  deadline : Z;
  timerCallback : TimerCallback;
}.

(** The component, its editor and its environment.  [state], [job],
    [timeoutAlarm] and [queryId] are the fields of the class; [value] and
    [markers] belong to the editor's model; [jobs] is the polling client;
    [timers], [nextTimer] and [now] are the timer queue of the event loop,
    kept in firing order; [dispatched] lists the actions sent to the store,
    oldest first. *)
Record World := {
  props : QueryTextEditorProps;
  state : QueryTextEditorState;
  job : option nat;
  timeoutAlarm : option nat;
  queryId : QueryId;
  value : string;
  markers : list IMarkerData;
  jobs : list PagedJob;
  timers : list Timer;
  nextTimer : nat;
  now : Z;
  dispatched : list Action;
}.

Definition set_state (s : QueryTextEditorState) (w : World) : World :=
  {| props := props w; state := s; job := job w; timeoutAlarm := timeoutAlarm w;
     queryId := queryId w; value := value w; markers := markers w; jobs := jobs w;
     timers := timers w; nextTimer := nextTimer w; now := now w;
     dispatched := dispatched w |}.

Definition set_job (j : option nat) (w : World) : World :=
  {| props := props w; state := state w; job := j; timeoutAlarm := timeoutAlarm w;
     queryId := queryId w; value := value w; markers := markers w; jobs := jobs w;
     timers := timers w; nextTimer := nextTimer w; now := now w;
     dispatched := dispatched w |}.

Definition set_timeoutAlarm (t : option nat) (w : World) : World :=
  {| props := props w; state := state w; job := job w; timeoutAlarm := t;
     queryId := queryId w; value := value w; markers := markers w; jobs := jobs w;
     timers := timers w; nextTimer := nextTimer w; now := now w;
     dispatched := dispatched w |}.

Definition set_value (v : string) (w : World) : World :=
  {| props := props w; state := state w; job := job w; timeoutAlarm := timeoutAlarm w;
     queryId := queryId w; value := v; markers := markers w; jobs := jobs w;
     timers := timers w; nextTimer := nextTimer w; now := now w;
     dispatched := dispatched w |}.

Definition set_markers (m : list IMarkerData) (w : World) : World :=
  {| props := props w; state := state w; job := job w; timeoutAlarm := timeoutAlarm w;
     queryId := queryId w; value := value w; markers := m; jobs := jobs w;
     timers := timers w; nextTimer := nextTimer w; now := now w;
     dispatched := dispatched w |}.

Definition set_jobs (js : list PagedJob) (w : World) : World :=
  {| props := props w; state := state w; job := job w; timeoutAlarm := timeoutAlarm w;
     queryId := queryId w; value := value w; markers := markers w; jobs := js;
     timers := timers w; nextTimer := nextTimer w; now := now w;
     dispatched := dispatched w |}.

Definition set_timers (ts : list Timer) (n : nat) (w : World) : World :=
  {| props := props w; state := state w; job := job w; timeoutAlarm := timeoutAlarm w;
     queryId := queryId w; value := value w; markers := markers w; jobs := jobs w;
     timers := ts; nextTimer := n; now := now w;
     dispatched := dispatched w |}.

Definition set_now (t : Z) (w : World) : World :=
  {| props := props w; state := state w; job := job w; timeoutAlarm := timeoutAlarm w;
     queryId := queryId w; value := value w; markers := markers w; jobs := jobs w;
     timers := timers w; nextTimer := nextTimer w; now := t;
     dispatched := dispatched w |}.

(** [this.props.f(x)] for one of the three action creators. *)
Definition dispatch (a : Action) (w : World) : World :=
  {| props := props w; state := state w; job := job w; timeoutAlarm := timeoutAlarm w;
     queryId := queryId w; value := value w; markers := markers w; jobs := jobs w;
     timers := timers w; nextTimer := nextTimer w; now := now w;
     dispatched := dispatched w ++ [a] |}.

(** [this.setState({...})] for the subsets of fields the code passes. *)
Definition setState_buttonState (b : ButtonStates.t) (w : World) : World :=
  set_state {| buttonState := b;
               bytesProcessed := bytesProcessed (state w);
               errorMsg := errorMsg (state w) |} w.

Definition setState_bytesProcessed (n : option json) (w : World) : World :=
  set_state {| buttonState := buttonState (state w);
               bytesProcessed := n;
               errorMsg := errorMsg (state w) |} w.

Definition setState_errorMsg (e : option string) (w : World) : World :=
  set_state {| buttonState := buttonState (state w);
               bytesProcessed := bytesProcessed (state w);
               errorMsg := e |} w.

(** *** The timer queue *)

(** A timer enters the queue behind every timer that is due no later. *)
Fixpoint enqueue (t : Timer) (q : list Timer) : list Timer :=
  match q with
  | [] => [t]
  | u :: q' => if deadline u <=? deadline t then u :: enqueue t q' else t :: q
  end.

(** [setTimeout(f, ms)]: the new timer's identifier is returned. *)
Definition setTimeout (f : TimerCallback) (ms : Z) (w : World) : World * nat :=
  let t := {| timerId := nextTimer w; deadline := now w + ms; timerCallback := f |} in
  (set_timers (enqueue t (timers w)) (S (nextTimer w)) w, nextTimer w).

(** [clearTimeout(id)]; a timer that has fired is no longer in the queue. *)
Definition clearTimeout (id : nat) (w : World) : World :=
  set_timers (filter (fun t => timerId t ≠ id) (timers w)) (nextTimer w) w.

(** *** The polling client *)

(** Modelled from the spec: [PagedService.request] and [PagedJob.cancel] are
    not part of this file.  [request(body, onUpdate, pollIntervalMs)]
    returns a handle for a new job; [handle.cancel()] stops the polling, so
    that no further update is delivered, and is safe after completion and
    when repeated. *)
Definition pagedQueryService_request (body : QueryRequestBodyType) (cb : Callback)
    (interval : option Z) (w : World) : World * nat :=
  let j := {| request := body; callback := cb; pollInterval := interval;
              status := Running |} in
  (set_jobs (jobs w ++ [j]) w, length (jobs w)).

Definition cancelled (j : PagedJob) : PagedJob :=
  {| request := request j; callback := callback j; pollInterval := pollInterval j;
     status := match status j with Running => Cancelled | s => s end |}.

Definition job_cancel (h : nat) (w : World) : World :=
  set_jobs (alter cancelled h (jobs w)) w.

(** Modelled from the spec: the result store is not part of this file.
    [updateQueryResult] puts a result in the slot of its query,
    [resetQueryResult] empties the slot and keeps it, [deleteQueryEntry]
    removes the slot. *)
Definition reduce (store : gmap QueryId (option QueryResult)) (a : Action)
    : gmap QueryId (option QueryResult) :=
  match a with
  | updateQueryResult r => <[res_queryId r := Some r]> store
  | resetQueryResult id => <[id := None]> store
  | deleteQueryEntry id => delete id store
  end.

Definition store (w : World) : gmap QueryId (option QueryResult) :=
  foldl reduce ∅ (dispatched w).

(** *** The methods of the class *)

Definition resetMarkers (w : World) : World := set_markers [] w.

Definition handleCancel (w : World) : World :=
  match job w with
  | Some h => job_cancel h w
  | None => w
  end.

Definition handleQuery (w : World) : World :=
  let w := dispatch (resetQueryResult (props_queryId (props w))) w in
  let query := value w in
  let w := set_state {| buttonState := ButtonStates.PENDING;
                        bytesProcessed := None;
                        errorMsg := None |} w in
  let '(w, h) :=
    pagedQueryService_request
      {| query := query; jobConfig := queryFlags (props w); dryRunOnly := false |}
      QueryCallback (Some 2000) w in
  set_job (Some h) w.

Definition handleButtonClick (w : World) : World :=
  match buttonState (state w) with
  | ButtonStates.READY | ButtonStates.ERROR => handleQuery w
  | ButtonStates.PENDING => handleCancel w
  end.

Definition checkSQL (w : World) : World :=
  let query := value w in
  if String.eqb query "" then w
  else
    fst (pagedQueryService_request
           {| query := query; jobConfig := queryFlags (props w); dryRunOnly := true |}
           CheckCallback None w).

(** The listener that [handleEditorDidMount] registers with
    [editor.onKeyUp]. *)
Definition onKeyUp (w : World) : World :=
  let w :=
    match timeoutAlarm w with
    | Some t => setState_errorMsg None (clearTimeout t w)
    | None => w
    end in
  let '(w, t) := setTimeout CheckSQL 1500 w in
  let w := set_timeoutAlarm (Some t) w in
  resetMarkers w.

Definition handleEditorDidMount (w : World) : World := checkSQL w.

Definition componentWillUnmount (w : World) : World :=
  dispatch (deleteQueryEntry (queryId w)) w.

(** [render] gives the editor its first value. *)
Definition queryValue (p : QueryTextEditorProps) : string :=
  match iniQuery p with
  | Some q => if String.eqb q "" then "SELECT * FROM *" else q
  | None => "SELECT * FROM *"
  end.

(** The world once the constructor has run and the editor shows its first
    value; timer identifiers are positive. *)
Definition constructor (p : QueryTextEditorProps) : World :=
  {| props := p;
     state := {| buttonState := ButtonStates.READY;
                 bytesProcessed := None;
                 errorMsg := None |};
     job := None; timeoutAlarm := None; queryId := props_queryId p;
     value := queryValue p; markers := []; jobs := [];
     timers := []; nextTimer := 1; now := 0; dispatched := [] |}.

Definition mounted (p : QueryTextEditorProps) : World :=
  handleEditorDidMount (constructor p).

Section Callbacks.

(** [JSON.parse], which raises a [SyntaxError] on text that is not JSON. *)
Variable JSON_parse : string -> completion json.

(** The callback of [handleQuery]. *)
Definition queryCallback (u : Update) (w : World) : completion World :=
  match u with
  | UPending response =>
      c ← JSON_parse (resp_content response);
      l ← JSON_parse (resp_labels response);
      b ← JSON_parse (resp_bytesProcessed response);
      let w := setState_bytesProcessed (Some b) w in
      let processed := {| content := c; labels := l; res_bytesProcessed := b;
                          res_queryId := queryId w |} in
      Normal (dispatch (updateQueryResult processed) w)
  | UFail response =>
      let w := set_state {| buttonState := ButtonStates.ERROR;
                            bytesProcessed := bytesProcessed (state w);
                            errorMsg := Some response |} w in
      Normal (fst (setTimeout ResetButton 2000 w))
  | UDone => Normal (setState_buttonState ButtonStates.READY w)
  end.

(** The callback of [checkSQL]. *)
Definition checkCallback (u : Update) (w : World) : completion World :=
  match u with
  | UFail res => Normal (set_markers (onValidationFail res (value w) (markers w)) w)
  | _ => Normal w
  end.

Definition runCallback (cb : Callback) (u : Update) (w : World) : completion World :=
  match cb with
  | QueryCallback => queryCallback u w
  | CheckCallback => checkCallback u w
  end.

(** Modelled from the spec: the polling client calls a job's callback only
    while the job is running; [Fail] and [Done] end the job.  A callback
    that raises leaves the component as it was. *)
Definition finished (j : PagedJob) : PagedJob :=
  {| request := request j; callback := callback j; pollInterval := pollInterval j;
     status := Finished |}.

Definition deliver (h : nat) (u : Update) (w : World) : World :=
  match jobs w !! h with
  | Some j =>
      match status j with
      | Running =>
          let w :=
            match u with
            | UPending _ => w
            | _ => set_jobs (alter finished h (jobs w)) w
            end in
          match runCallback (callback j) u w with
          | Normal w' => w'
          | Throw _ => w
          end
      | _ => w
      end
  | None => w
  end.

(** *** The event loop *)

Definition runTimer (t : Timer) (w : World) : World :=
  match timerCallback t with
  | CheckSQL => checkSQL w
  | ResetButton => setState_buttonState ButtonStates.READY w
  end.

(** A timer fires: the clock is at its deadline, or later, and its
    callback runs. *)
Definition fire (w : World) (t : Timer) : World :=
  runTimer t (set_now (Z.max (now w) (deadline t)) w).

(** Time passes: the timers that are due leave the queue and fire in queue
    order.  Neither timer callback arms or clears a timer, so the timers
    that fire are those due when the clock moves. *)
Definition advance (ms : Z) (w : World) : World :=
  let target := now w + Z.max 0 ms in
  let due := filter (fun t => deadline t <= target) (timers w) in
  let later := filter (fun t => ¬ deadline t <= target) (timers w) in
  set_now target (foldl fire (set_timers later (nextTimer w) w) due).

Inductive Event :=
| Click
| Edit (text : string)
| Deliver (h : nat) (u : Update)
| Advance (ms : Z)
| Unmount.

(** [Click] is the button's [onClick]; [Edit] is a key stroke that leaves
    [text] in the editor, followed by the key-up listener; [Deliver] is the
    polling client reporting on a job; [Advance] lets time pass. *)
Definition step (w : World) (e : Event) : World :=
  match e with
  | Click => handleButtonClick w
  | Edit text => onKeyUp (set_value text w)
  | Deliver h u => deliver h u w
  | Advance ms => advance ms w
  | Unmount => componentWillUnmount w
  end.

Definition run (w : World) (es : list Event) : World := foldl step w es.

End Callbacks.

(** ** The claims of the specification, in its own words *)

(** The tokens of a text that white space separates. *)
Fixpoint splitBy (p : ascii -> bool) (s : string) : list string :=
  match s with
  | EmptyString => [EmptyString]
  | String c r =>
      if p c then EmptyString :: splitBy p r
      else match splitBy p r with
           | h :: t => String c h :: t
           | [] => [String c EmptyString]
           end
  end.

Definition whitespaceTokens (s : string) : list string :=
  filter (fun t => t ≠ EmptyString) (splitBy JS.isWhiteSpace s).

(** "The 4th whitespace-separated token is expected to contain a colon; the
    substring after the last colon is the offending identifier." *)
Definition spec_identifier (response : string) : option string :=
  token ← whitespaceTokens response !! 3%nat;
  last (JS.split ":" token).

(** A text buffer given by its lines, and whether a line number names one
    of them. *)
Definition buffer (texts : list string) : string :=
  String.concat (String LF EmptyString) texts.

Definition lineInBuffer (line : JS.jsnum) (value : string) : bool :=
  match line with
  | JS.Num z => (1 <=? z) && (z <=? Z.of_nat (length (JS.split LF value)))
  | _ => false
  end.

(** The sentence on the not-found format as the specification has it: the
    identifier of [spec_identifier], the last line that contains it, its
    offset there and its length. *)
Definition notFound_as_stated (response value : string) : Prop :=
  forall id i text,
    spec_identifier response = Some id ->
    JS.split LF value !! i = Some text ->
    JS.indexOf text id ≠ -1 ->
    Forall (fun text' => JS.indexOf text' id = -1) (drop (S i) (JS.split LF value)) ->
    exists d,
      handleNotFound response value = Normal (Some d) /\
      startLineNumber d = JS.Num (Z.of_nat i + 1) /\
      startColumn d = JS.Num (JS.indexOf text id) /\
      endColumn d = JS.Num (JS.indexOf text id + JS.len id).

(** The timers of the queue that will run [checkSQL], and the property of
    the debounce: each of them is the one [timeoutAlarm] holds. *)
Definition isCheck (t : Timer) : Prop := timerCallback t = CheckSQL.

#[export] Instance isCheck_dec t : Decision (isCheck t).
Proof. unfold isCheck. destruct (timerCallback t); [left|right]; congruence. Defined.

Definition pendingChecks (w : World) : list Timer := filter isCheck (timers w).

Definition debounce_inv (w : World) : Prop :=
  Forall (fun t => timeoutAlarm w = Some (timerId t)) (pendingChecks w).

(** The job a dry run of [text] creates, and the job a submission of
    [text] creates. *)
Definition validation (text : string) (p : QueryTextEditorProps) : PagedJob :=
  {| request := {| query := text; jobConfig := queryFlags p; dryRunOnly := true |};
     callback := CheckCallback; pollInterval := None; status := Running |}.

Definition submission (text : string) (p : QueryTextEditorProps) : PagedJob :=
  {| request := {| query := text; jobConfig := queryFlags p; dryRunOnly := false |};
     callback := QueryCallback; pollInterval := Some 2000; status := Running |}.

(** The jobs that [n] firings of [checkSQL] create on the text [text]. *)
Definition spawned (text : string) (p : QueryTextEditorProps) (n : nat) : list PagedJob :=
  if String.eqb text "" then [] else replicate n (validation text p).

(** An editor for the examples. *)
Definition exampleProps : QueryTextEditorProps :=
  {| props_queryId := "editor-1"; iniQuery := Some "SELECT 1"; queryFlags := None |}.

(** ** Rendering *)

(** What [renderButton] puts in the button: a plain caption, or the
    progress circle with a caption. *)
Inductive ButtonContent :=
| Caption (text : string)
| PendingStatus (text : string).

Record ButtonView := {
  color : string;
  buttonContent : ButtonContent;
}.

Definition renderButton (w : World) : ButtonView :=
  match buttonState (state w) with
  | ButtonStates.PENDING =>
      {| color := "default"; buttonContent := PendingStatus "Cancel" |}
  | ButtonStates.READY =>
      {| color := "primary"; buttonContent := Caption "Submit" |}
  | ButtonStates.ERROR =>
      {| color := "secondary"; buttonContent := Caption "Error" |}
  end.


(** ** Further notions for the properties below *)


(** A burst of key strokes: each leaves its text and is followed by a
    pause. *)
Definition burst (strokes : list (string * Z)) : list Event :=
  flat_map (fun s => [Edit s.1; Advance s.2]) strokes.

(** The job the component holds is a job of [handleQuery], and the button
    is Pending only while one is held. *)
Definition job_inv (w : World) : Prop :=
  (buttonState (state w) = ButtonStates.PENDING -> is_Some (job w)) /\
  (forall h, job w = Some h ->
     exists j, jobs w !! h = Some j /\ callback j = QueryCallback /\
               dryRunOnly (request j) = false).

(** The pending [checkSQL] timers: at most one, held by [timeoutAlarm],
    not overdue and due within 1500 ms. *)
Definition check_inv (w : World) : Prop :=
  (length (pendingChecks w) <= 1)%nat /\
  Forall (fun t => timeoutAlarm w = Some (timerId t) /\
                   now w < deadline t <= now w + 1500) (pendingChecks w).

(** The query an action of the store addresses, and the property that the
    component addresses no query but its own. *)
Definition actionId (a : Action) : QueryId :=
  match a with
  | updateQueryResult r => res_queryId r
  | resetQueryResult id => id
  | deleteQueryEntry id => id
  end.

Definition own_inv (p : QueryTextEditorProps) (w : World) : Prop :=
  props w = p /\ queryId w = props_queryId p /\
  Forall (fun a => actionId a = props_queryId p) (dispatched w).

(** * Proofs *)
(** ** Facts about the string primitives *)

Lemma split_not_nil sep s : JS.split sep s ≠ [].
Proof.
  destruct s as [|c r]; simpl; [discriminate|].
  destruct (Ascii.eqb c sep); [discriminate|].
  destruct (JS.split sep r); discriminate.
Qed.

Lemma pop_split_is_Some sep s : is_Some (JS.pop (JS.split sep s)).
Proof.
  unfold JS.pop. destruct (JS.split sep s) eqn:E using rev_ind.
  - by apply split_not_nil in E.
  - rewrite last_snoc. eauto.
Qed.

Lemma prefix_nil_l s : String.prefix "" s = true.
Proof. by destruct s. Qed.

Lemma prefix_nil_r p : String.prefix p "" = true -> p = "".
Proof. destruct p; [done | discriminate]. Qed.

(** Removing trailing white space does not change whether a text starts
    with a prompt that itself ends in a character that is not white space. *)
Lemma prefix_trimEnd p s :
  p ≠ "" -> JS.trimEnd p = p ->
  String.prefix p (JS.trimEnd s) = String.prefix p s.
Proof.
  revert s. induction p as [|a p IH]; intros s Hne Hp; [done|].
  destruct s as [|b s]; [done|].
  simpl in Hp. cbn [JS.trimEnd].
  destruct p as [|a' p'].
  - simpl in Hp. destruct (JS.isWhiteSpace a) eqn:Ha; [discriminate|].
    destruct (JS.trimEnd s) eqn:Es; simpl.
    + destruct (JS.isWhiteSpace b) eqn:Hb; simpl;
        destruct (ascii_dec a b); subst; rewrite ?prefix_nil_l; congruence.
    + destruct (ascii_dec a b); by rewrite ?prefix_nil_l.
  - assert (Hp' : JS.trimEnd (String a' p') = String a' p').
    { destruct (JS.trimEnd (String a' p')) eqn:E.
      - destruct (JS.isWhiteSpace a); discriminate.
      - congruence. }
    specialize (IH s ltac:(discriminate) Hp').
    destruct (JS.trimEnd s) eqn:Es.
    + change (String.prefix (String a (String a' p')) (String b s))
        with (if ascii_dec a b then String.prefix (String a' p') s else false).
      rewrite <- IH.
      destruct (JS.isWhiteSpace b); simpl; destruct (ascii_dec a b); done.
    + change (String.prefix (String a (String a' p')) (String b s))
        with (if ascii_dec a b then String.prefix (String a' p') s else false).
      rewrite <- IH. simpl. done.
Qed.

Lemma startsWith_trim p s :
  p ≠ "" -> JS.trimEnd p = p ->
  JS.startsWith (JS.trim s) p = JS.startsWith (JS.trimStart s) p.
Proof. intros. unfold JS.startsWith, JS.trim. by apply prefix_trimEnd. Qed.

(** A text whose first character is not white space is its own
    [trimStart]. *)
Lemma trimStart_id c r : JS.isWhiteSpace c = false -> JS.trimStart (String c r) = String c r.
Proof. intros H. simpl. by rewrite H. Qed.


Lemma indexOf_from_range n s i :
  JS.indexOf_from i s n = -1 \/ i <= JS.indexOf_from i s n.
Proof.
  revert i. induction s as [|c r IH]; intros i; cbn [JS.indexOf_from].
  - destruct (String.prefix n ""); lia.
  - destruct (String.prefix n (String c r)); [lia|].
    destruct (IH (i + 1)); lia.
Qed.

Lemma indexOf_from_shift n s i :
  JS.indexOf_from i s n =
  if JS.indexOf_from 0 s n =? -1 then -1 else i + JS.indexOf_from 0 s n.
Proof.
  revert i. induction s as [|c r IH]; intros i; cbn [JS.indexOf_from].
  - destruct (String.prefix n ""); simpl; lia.
  - destruct (String.prefix n (String c r)); [simpl; lia|].
    rewrite (IH (i + 1)), (IH (0 + 1)).
    destruct (indexOf_from_range n r 0) as [E|E].
    + by rewrite E.
    + destruct (Z.eqb_spec (JS.indexOf_from 0 r n) (-1)); [lia|].
      destruct (Z.eqb_spec (0 + 1 + JS.indexOf_from 0 r n) (-1)); lia.
Qed.

(** Where [indexOf] finds the needle, the needle is. *)
Lemma indexOf_from_occurrence n s i k :
  JS.indexOf_from i s n = k -> k ≠ -1 ->
  i <= k /\ String.substring (Z.to_nat (k - i)) (String.length n) s = n.
Proof.
  revert i. induction s as [|c r IH]; intros i; cbn [JS.indexOf_from].
  - destruct (String.prefix n "") eqn:E; [|lia].
    intros <- _. split; [lia|]. rewrite Z.sub_diag. simpl.
    apply prefix_nil_r in E. by subst.
  - destruct (String.prefix n (String c r)) eqn:E.
    + intros <- _. split; [lia|]. rewrite Z.sub_diag.
      by apply prefix_correct.
    + intros Hk Hne. destruct (IH _ Hk Hne) as [Hle Hsub]. split; [lia|].
      replace (Z.to_nat (k - i)) with (S (Z.to_nat (k - (i + 1)))) by lia.
      done.
Qed.

Lemma indexOf_occurrence n s :
  JS.indexOf s n ≠ -1 ->
  0 <= JS.indexOf s n /\
  String.substring (Z.to_nat (JS.indexOf s n)) (String.length n) s = n.
Proof.
  intros H. destruct (indexOf_from_occurrence n s 0 _ eq_refl H) as [? E].
  split; [done|]. by rewrite Z.sub_0_r in E.
Qed.

Lemma indexOf_cons_ne sep c e :
  c ≠ sep -> JS.indexOf e (String sep "") = -1 ->
  JS.indexOf (String c e) (String sep "") = -1.
Proof.
  intros Hc He. unfold JS.indexOf in *. cbn [JS.indexOf_from].
  replace (String.prefix (String sep "") (String c e)) with false.
  - rewrite indexOf_from_shift, He. done.
  - simpl. by destruct (ascii_dec sep c); [subst|].
Qed.

(** What [split] returns: the last piece holds no separator, and it is the
    whole text or what follows the text's last separator. *)
Lemma split_spec sep s :
  exists init e,
    JS.split sep s = (init ++ [e])%list /\
    JS.indexOf e (String sep "") = -1 /\
    (init = [] /\ s = e \/ init ≠ [] /\ exists pre, s = pre +:+ String sep e).
Proof.
  induction s as [|c r (init & e & Hs & He & Hr)].
  - exists [], "". repeat split; auto.
  - simpl. destruct (Ascii.eqb_spec c sep) as [->|Hc].
    + exists ("" :: init), e. rewrite Hs. repeat split; [done|].
      right. split; [done|]. destruct Hr as [[_ ->]|[_ [pre ->]]].
      * by exists "".
      * by exists (String sep pre).
    + rewrite Hs. destruct Hr as [[-> ->]|[Hi [pre ->]]].
      * exists [], (String c e). simpl. repeat split; auto using indexOf_cons_ne.
      * destruct init as [|h t]; [done|]. simpl.
        exists (String c h :: t), e. repeat split; [done|].
        right. split; [done|]. by exists (String c pre).
Qed.

Lemma pop_split_after_last sep s e :
  JS.pop (JS.split sep s) = Some e ->
  JS.indexOf e (String sep "") = -1 /\
  (s = e \/ exists pre, s = pre +:+ String sep e).
Proof.
  destruct (split_spec sep s) as (init & e' & Hs & He & Hr).
  unfold JS.pop. rewrite Hs, last_snoc. intros [= <-]. split; [done|].
  destruct Hr as [[_ ?]|[_ ?]]; auto.
Qed.

(** [substring] returns a contiguous part of its argument. *)
Lemma substring_0_part m s : exists post, s = String.substring 0 m s +:+ post.
Proof.
  revert m. induction s as [|c r IH]; intros m.
  - exists "". by destruct m.
  - destruct m as [|m]; simpl.
    + by exists (String c r).
    + destruct (IH m) as [post E]. exists post. rewrite E at 1. reflexivity.
Qed.

Lemma substring_part n m s :
  exists pre post, s = pre +:+ String.substring n m s +:+ post.
Proof.
  revert n. induction s as [|c r IH]; intros n.
  - exists "", "". by destruct n, m.
  - destruct n as [|n].
    + destruct (substring_0_part m (String c r)) as [post E]. by exists "", post.
    + destruct (IH n) as (pre & post & E). exists (String c pre), post.
      rewrite E at 1. reflexivity.
Qed.

Lemma JS_substring_part s a b :
  exists pre post, s = pre +:+ JS.substring s a b +:+ post.
Proof. apply substring_part. Qed.

(** ** The scan of [handleNotFound] *)

Lemma scan_no_match errStr texts i line pos :
  (forall text, text ∈ texts -> JS.indexOf text errStr = -1) ->
  scan errStr texts i line pos = (line, pos).
Proof.
  revert i. induction texts as [|text rest IH]; intros i H; [done|].
  simpl. rewrite (H text) by set_solver. simpl. apply IH.
  intros t Ht. apply H. set_solver.
Qed.

Lemma scan_last_match errStr before text after i line pos :
  JS.indexOf text errStr ≠ -1 ->
  (forall text', text' ∈ after -> JS.indexOf text' errStr = -1) ->
  scan errStr (before ++ text :: after)%list i line pos =
  (i + Z.of_nat (length before) + 1, JS.indexOf text errStr).
Proof.
  intros Hm Ha. revert i line pos.
  induction before as [|b before IH]; intros i line pos; simpl.
  - destruct (Z.eqb_spec (JS.indexOf text errStr) (-1)); [done|]. simpl.
    rewrite scan_no_match by done. f_equal. lia.
  - destruct (negb _); rewrite IH; f_equal; lia.
Qed.

(** ** The two handlers, case by case *)

Lemma handleNotFound_no_prompt response value :
  JS.startsWith (JS.trim response) "Not found:" = false ->
  handleNotFound response value = Normal None.
Proof. intros H. unfold handleNotFound. by rewrite H. Qed.

Lemma handleNotFound_short response value :
  JS.startsWith (JS.trim response) "Not found:" = true ->
  JS.split " " (JS.trim response) !! 3%nat = None ->
  handleNotFound response value = Throw TypeError.
Proof. intros H1 H2. unfold handleNotFound. by rewrite H1, H2. Qed.

Lemma handleNotFound_marker response value token errStr :
  JS.startsWith (JS.trim response) "Not found:" = true ->
  JS.split " " (JS.trim response) !! 3%nat = Some token ->
  JS.pop (JS.split ":" token) = Some errStr ->
  handleNotFound response value =
  let lp := scan errStr (JS.split LF value) 0 (-1) (-1) in
  Normal (Some {| startLineNumber := JS.Num lp.1;
                  endLineNumber := JS.Num lp.1;
                  startColumn := JS.Num lp.2;
                  endColumn := JS.Num (lp.2 + JS.len errStr);
                  message := JS.trim response;
                  severity := MarkerSeverity.Error |}).
Proof.
  intros H1 H2 H3. unfold handleNotFound. rewrite H1, H2. simpl.
  rewrite H3. simpl. by destruct (scan _ _ _ _ _).
Qed.

Lemma handleSyntaxError_no_prompt response value :
  JS.startsWith (JS.trim response) "Syntax error:" = false ->
  handleSyntaxError response value = Normal None.
Proof. intros H. unfold handleSyntaxError. by rewrite H. Qed.

Lemma index_is_Some_lineInBuffer line value :
  lineInBuffer line value = true ->
  is_Some (JS.index (JS.split LF value) (JS.sub line (JS.Num 1))).
Proof.
  destruct line as [| |z]; simpl; try done.
  intros [H1 H2]%andb_true_iff. apply Z.leb_le in H1, H2.
  destruct (Z.leb_spec 0 (z - 1)); [|lia].
  apply lookup_lt_is_Some. lia.
Qed.

Lemma index_None_lineInBuffer line value :
  lineInBuffer line value = false ->
  JS.index (JS.split LF value) (JS.sub line (JS.Num 1)) = None.
Proof.
  destruct line as [| |z]; simpl; try done.
  intros H. destruct (Z.leb_spec 0 (z - 1)); [|done].
  apply lookup_ge_None.
  apply andb_false_iff in H as [H|H]; [apply Z.leb_gt in H|apply Z.leb_gt in H]; lia.
Qed.

Lemma handleSyntaxError_outside response value :
  JS.startsWith (JS.trim response) "Syntax error:" = true ->
  lineInBuffer (locator (JS.trim response)).1 value = false ->
  handleSyntaxError response value = Throw TypeError.
Proof.
  intros H1 H2. unfold handleSyntaxError. rewrite H1. cbn [negb].
  destruct (locator (JS.trim response)) as [line pos]; cbn [fst] in H2.
  by rewrite (index_None_lineInBuffer _ _ H2).
Qed.

Lemma handleSyntaxError_marker response value :
  JS.startsWith (JS.trim response) "Syntax error:" = true ->
  lineInBuffer (locator (JS.trim response)).1 value = true ->
  exists d,
    handleSyntaxError response value = Normal (Some d) /\
    startLineNumber d = (locator (JS.trim response)).1 /\
    startColumn d = (locator (JS.trim response)).2 /\
    message d = JS.substring (JS.trim response) (JS.Num 13)
                  (JS.Num (JS.lastIndexOf (JS.trim response) "at")).
Proof.
  intros H1 H2. unfold handleSyntaxError. rewrite H1. cbn [negb].
  destruct (locator (JS.trim response)) as [line pos]; cbn [fst snd] in *.
  destruct (index_is_Some_lineInBuffer _ _ H2) as [text ->].
  eexists. split; [reflexivity|]. done.
Qed.

Lemma applyHandler_cases r markers :
  applyHandler r markers = markers \/ exists d, applyHandler r markers = [d].
Proof. destruct r as [[d|]|]; simpl; eauto. Qed.

(** ** Claims about the diagnostic parser *)

(** C1, as the specification states it, fails: on the text "Not found: x",
    with fewer than four tokens, [handleNotFound] does not return; it raises
    a [TypeError]. *)
Lemma handleNotFound_short_text_throws :
  handleNotFound "Not found: x" "SELECT 1" = Throw TypeError /\
  ~ exists r, handleNotFound "Not found: x" "SELECT 1" = Normal r.
Proof.
  assert (E : handleNotFound "Not found: x" "SELECT 1" = Throw TypeError)
    by (vm_compute; reflexivity).
  split; [exact E|]. intros [r H]. rewrite E in H. discriminate H.
Qed.

(** The same happens to [handleSyntaxError] without a locator, and with a
    locator that names a line the buffer does not have. *)
Example handleSyntaxError_no_locator_throws :
  handleSyntaxError "Syntax error: unexpected end" "SELECT 1" = Throw TypeError.
Proof. vm_compute. reflexivity. Qed.

Example handleSyntaxError_line_outside_throws :
  handleSyntaxError "Syntax error: bad token at [10:1]" "SELECT 1" = Throw TypeError.
Proof. vm_compute. reflexivity. Qed.

(** C1 (amended).  For every raw error text and every buffer each handler
    ends in one of three ways, decided by the trimmed text: it returns
    without a marker when the text does not start with its prompt; it sets
    exactly one marker when the text is well formed (at least four pieces
    between single spaces for "Not found:", a locator naming a line of the
    buffer for "Syntax error:"); otherwise its body raises a [TypeError],
    which rejects the promise of the [async] handler.  In every case the
    marker set after the failure callback is the old one or a single
    marker. *)
Theorem handlers_outcome response value markers :
  let r := JS.trim response in
  (handleNotFound response value = Normal None /\
     JS.startsWith r "Not found:" = false
   \/ (exists d, handleNotFound response value = Normal (Some d)) /\
     JS.startsWith r "Not found:" = true /\
     (4 <= length (JS.split " " r))%nat
   \/ handleNotFound response value = Throw TypeError /\
     JS.startsWith r "Not found:" = true /\
     (length (JS.split " " r) < 4)%nat)
  /\
  (handleSyntaxError response value = Normal None /\
     JS.startsWith r "Syntax error:" = false
   \/ (exists d, handleSyntaxError response value = Normal (Some d)) /\
     JS.startsWith r "Syntax error:" = true /\
     lineInBuffer (locator r).1 value = true
   \/ handleSyntaxError response value = Throw TypeError /\
     JS.startsWith r "Syntax error:" = true /\
     lineInBuffer (locator r).1 value = false)
  /\
  (onValidationFail response value markers = markers
   \/ exists d, onValidationFail response value markers = [d]).
Proof.
  intros r. subst r. split; [|split].
  - destruct (JS.startsWith (JS.trim response) "Not found:") eqn:Hp.
    + right. destruct (JS.split " " (JS.trim response) !! 3%nat) as [token|] eqn:Ht.
      * left. destruct (pop_split_is_Some ":" token) as [errStr He].
        rewrite (handleNotFound_marker _ _ _ _ Hp Ht He).
        apply lookup_lt_Some in Ht. split; [eauto|]. split; [done|lia].
      * right. apply lookup_ge_None in Ht.
        split; [apply handleNotFound_short; [done|by apply lookup_ge_None]|].
        split; [done|lia].
    + left. by rewrite handleNotFound_no_prompt.
  - destruct (JS.startsWith (JS.trim response) "Syntax error:") eqn:Hp.
    + right. destruct (lineInBuffer (locator (JS.trim response)).1 value) eqn:Hl.
      * left. destruct (handleSyntaxError_marker _ _ Hp Hl) as (d & Hd & _). eauto.
      * right. by rewrite handleSyntaxError_outside.
    + left. by rewrite handleSyntaxError_no_prompt.
  - unfold onValidationFail.
    destruct (handleNotFound response value) as [[d|]|]; simpl; eauto;
      apply applyHandler_cases.
Qed.

(** C3, as the specification states it, fails: the marker's message is
    " bad token ", with the space that follows the prompt, and not
    "bad token ". *)
Lemma syntax_error_example_message :
  (exists d,
      handleSyntaxError "Syntax error: bad token at [3:5]"
        (buffer ["a"; "bb"; "ccc ddd"]) = Normal (Some d) /\
      message d = " bad token ") /\
  ~ (exists d,
      handleSyntaxError "Syntax error: bad token at [3:5]"
        (buffer ["a"; "bb"; "ccc ddd"]) = Normal (Some d) /\
      startLineNumber d = JS.Num 3 /\ startColumn d = JS.Num 5 /\
      message d = "bad token ").
Proof.
  split.
  - eexists. split; vm_compute; reflexivity.
  - intros (d & H & _ & _ & Hm). vm_compute in H. injection H as <-.
    discriminate Hm.
Qed.

(** C3 (amended).  On "Syntax error: bad token at [3:5]" over the lines "a",
    "bb" and "ccc ddd" the handler sets one marker with line 3, start column
    5 and message " bad token ", the text between the prompt and the last
    "at" with its leading space; no space follows column 5 of line 3, and the
    end column is the length of the line plus one. *)
Theorem syntax_error_example :
  let value := buffer ["a"; "bb"; "ccc ddd"] in
  JS.split LF value = ["a"; "bb"; "ccc ddd"] /\
  handleSyntaxError "Syntax error: bad token at [3:5]" value =
    Normal (Some {| startLineNumber := JS.Num 3;
                    endLineNumber := JS.Num 3;
                    startColumn := JS.Num 5;
                    endColumn := JS.Num (JS.len "ccc ddd" + 1);
                    message := " bad token ";
                    severity := MarkerSeverity.Error |}) /\
  JS.indexOf (JS.substring1 "ccc ddd" (JS.Num 5)) " " = -1 /\
  JS.len "ccc ddd" + 1 = 8.
Proof. repeat split; vm_compute; reflexivity. Qed.

(** C4, as the specification states it, fails: with two spaces in front of
    the fourth word, the fourth piece the code takes is empty, so the marker
    sits at offset 0 with length 0 and not on the identifier "tbl". *)
Lemma notFound_double_space :
  JS.startsWith "Not found: Table  ds:tbl" "Not found:" = true /\
  spec_identifier "Not found: Table  ds:tbl" = Some "tbl" /\
  ~ notFound_as_stated "Not found: Table  ds:tbl" "SELECT * FROM tbl".
Proof.
  split; [by vm_compute|]. split; [by vm_compute|].
  intros H. destruct (H "tbl" O "SELECT * FROM tbl") as (d & Hd & _ & Hc & _).
  - by vm_compute.
  - by vm_compute.
  - by vm_compute.
  - vm_compute. constructor.
  - vm_compute in Hd. injection Hd as <-. vm_compute in Hc. discriminate Hc.
Qed.

(** C4 (amended).  Let the trimmed text begin with "Not found:" and have a
    fourth piece when it is split at single spaces.  The identifier, the
    last piece of that token split at colons, holds no colon and is the
    whole token or what follows its last colon.  If line [i] (counted from
    0) holds the identifier and no later line does, the handler sets one
    marker on line [i + 1] whose start column is the offset of the first
    occurrence of the identifier in that line and whose end column is the
    start column plus the identifier's length. *)
Theorem handleNotFound_last_matching_line response value token errStr i text :
  JS.startsWith (JS.trim response) "Not found:" = true ->
  JS.split " " (JS.trim response) !! 3%nat = Some token ->
  JS.pop (JS.split ":" token) = Some errStr ->
  JS.split LF value !! i = Some text ->
  JS.indexOf text errStr ≠ -1 ->
  Forall (fun text' => JS.indexOf text' errStr = -1)
         (drop (S i) (JS.split LF value)) ->
  (JS.indexOf errStr ":" = -1 /\
   (token = errStr \/ exists pre, token = pre +:+ ":" +:+ errStr)) /\
  handleNotFound response value =
    Normal (Some {| startLineNumber := JS.Num (Z.of_nat i + 1);
                    endLineNumber := JS.Num (Z.of_nat i + 1);
                    startColumn := JS.Num (JS.indexOf text errStr);
                    endColumn := JS.Num (JS.indexOf text errStr + JS.len errStr);
                    message := JS.trim response;
                    severity := MarkerSeverity.Error |}) /\
  (0 <= JS.indexOf text errStr /\
   String.substring (Z.to_nat (JS.indexOf text errStr)) (String.length errStr) text
   = errStr).
Proof.
  intros Hp Ht He Hi Hm Hafter. split; [|split].
  - by apply pop_split_after_last.
  - rewrite (handleNotFound_marker _ _ _ _ Hp Ht He).
    rewrite <- (take_drop_middle _ _ _ Hi).
    rewrite scan_last_match; [|done|by apply Forall_forall].
    rewrite length_take_le by (apply lookup_lt_Some in Hi; lia).
    cbn [fst snd]. do 3 f_equal; f_equal; lia.
  - by apply indexOf_occurrence.
Qed.

(** The example of C4: the identifier "table" only at offset 10 of line 2. *)
Lemma handleNotFound_last_matching_line_witness :
  handleNotFound "Not found: Table project:table"
    (buffer ["SELECT *"; "     FROM table"]) =
  Normal (Some {| startLineNumber := JS.Num 2;
                  endLineNumber := JS.Num 2;
                  startColumn := JS.Num 10;
                  endColumn := JS.Num 15;
                  message := "Not found: Table project:table";
                  severity := MarkerSeverity.Error |}).
Proof.
  destruct (handleNotFound_last_matching_line
              "Not found: Table project:table"
              (buffer ["SELECT *"; "     FROM table"])
              "project:table" "table" 1 "     FROM table") as (_ & H & _).
  - vm_compute. reflexivity.
  - vm_compute. reflexivity.
  - vm_compute. reflexivity.
  - vm_compute. reflexivity.
  - vm_compute. discriminate.
  - vm_compute. constructor.
  - rewrite H. vm_compute. reflexivity.
Defined.

(** With two matching lines the later one is marked. *)
Example handleNotFound_two_lines :
  exists d,
    handleNotFound "Not found: Table p:t1" (buffer ["FROM t1"; "JOIN  t1"; "x"])
    = Normal (Some d) /\
    startLineNumber d = JS.Num 2 /\ startColumn d = JS.Num 6 /\
    endColumn d = JS.Num 8.
Proof. eexists. split; [vm_compute; reflexivity|]. by vm_compute. Qed.

(** The text of the specification's own example has no colon in its fourth
    piece, so the identifier is the whole "project.dataset.table", which the
    buffer does not hold. *)
Example handleNotFound_dotted_name :
  exists d,
    handleNotFound "Not found: Table project.dataset.table"
      (buffer ["SELECT *"; "     FROM table"]) = Normal (Some d) /\
    startLineNumber d = JS.Num (-1) /\ startColumn d = JS.Num (-1) /\
    endColumn d = JS.Num 20.
Proof. eexists. split; [vm_compute; reflexivity|]. by vm_compute. Qed.

(** C8, as the specification states it, fails: a text with a leading space
    starts with neither prompt, and yet [handleNotFound], which trims the
    text first, sets a marker. *)
Lemma leading_space_sets_marker :
  JS.startsWith " Not found: Table p:t" "Not found:" = false /\
  JS.startsWith " Not found: Table p:t" "Syntax error:" = false /\
  (exists d, handleNotFound " Not found: Table p:t" "SELECT t" = Normal (Some d)) /\
  onValidationFail " Not found: Table p:t" "SELECT t" [] ≠ [].
Proof.
  split; [by vm_compute|]. split; [by vm_compute|]. split.
  - eexists. vm_compute. reflexivity.
  - vm_compute. discriminate.
Qed.

Lemma unrecognised_text_returns response value :
  JS.startsWith (JS.trimStart response) "Not found:" = false ->
  JS.startsWith (JS.trimStart response) "Syntax error:" = false ->
  handleNotFound response value = Normal None /\
  handleSyntaxError response value = Normal None.
Proof.
  intros Hn Hs.
  rewrite <- startsWith_trim in Hn by done.
  rewrite <- startsWith_trim in Hs by done.
  split; [by apply handleNotFound_no_prompt|by apply handleSyntaxError_no_prompt].
Qed.

(** C8 (amended).  For every error text that, once its leading white space
    is removed, starts with neither "Not found:" nor "Syntax error:", both
    handlers return without a marker, and the failure callback of the
    validation leaves the marker set, and the whole world, unchanged. *)
Theorem unrecognised_text_no_marker response buf markers w :
  JS.startsWith (JS.trimStart response) "Not found:" = false ->
  JS.startsWith (JS.trimStart response) "Syntax error:" = false ->
  handleNotFound response buf = Normal None /\
  handleSyntaxError response buf = Normal None /\
  onValidationFail response buf markers = markers /\
  checkCallback (UFail response) w = Normal w.
Proof.
  intros Hn Hs.
  destruct (unrecognised_text_returns response buf Hn Hs) as [En Es].
  destruct (unrecognised_text_returns response (value w) Hn Hs) as [En' Es'].
  repeat split; [done|done| |].
  - unfold onValidationFail. by rewrite En, Es.
  - unfold checkCallback, onValidationFail. rewrite En', Es'. by destruct w.
Qed.

(** C8 on a text of another kind. *)
Lemma unrecognised_text_no_marker_witness :
  handleNotFound "Access Denied: Table p:d.t" "SELECT 1" = Normal None /\
  handleSyntaxError "Access Denied: Table p:d.t" "SELECT 1" = Normal None /\
  onValidationFail "Access Denied: Table p:d.t" "SELECT 1" [] = [] /\
  checkCallback (UFail "Access Denied: Table p:d.t") (mounted exampleProps)
  = Normal (mounted exampleProps).
Proof.
  apply unrecognised_text_no_marker; vm_compute; reflexivity.
Defined.

(** A text that itself starts with a character that is not white space is
    covered as the specification words it. *)
Corollary unrecognised_text_no_leading_space c rest value markers :
  JS.isWhiteSpace c = false ->
  JS.startsWith (String c rest) "Not found:" = false ->
  JS.startsWith (String c rest) "Syntax error:" = false ->
  onValidationFail (String c rest) value markers = markers.
Proof.
  intros Hc Hn Hs.
  destruct (unrecognised_text_returns (String c rest) value) as [En Es];
    [by rewrite trimStart_id|by rewrite trimStart_id|].
  unfold onValidationFail. by rewrite En, Es.
Qed.

(** C9.  For every "Not found:" text whose identifier occurs in no line of
    the buffer, the handler still sets a marker: line -1, start column -1,
    end column -1 plus the identifier's length. *)
Theorem handleNotFound_absent_identifier response value token errStr :
  JS.startsWith (JS.trim response) "Not found:" = true ->
  JS.split " " (JS.trim response) !! 3%nat = Some token ->
  JS.pop (JS.split ":" token) = Some errStr ->
  Forall (fun text => JS.indexOf text errStr = -1) (JS.split LF value) ->
  handleNotFound response value =
    Normal (Some {| startLineNumber := JS.Num (-1);
                    endLineNumber := JS.Num (-1);
                    startColumn := JS.Num (-1);
                    endColumn := JS.Num (-1 + JS.len errStr);
                    message := JS.trim response;
                    severity := MarkerSeverity.Error |}).
Proof.
  intros Hp Ht He Hno.
  rewrite (handleNotFound_marker _ _ _ _ Hp Ht He).
  rewrite scan_no_match by by apply Forall_forall.
  reflexivity.
Qed.

(** C9 on a data set the buffer does not name. *)
Lemma handleNotFound_absent_identifier_witness :
  handleNotFound "Not found: Dataset proj:sales" (buffer ["SELECT *"; "FROM t"]) =
    Normal (Some {| startLineNumber := JS.Num (-1);
                    endLineNumber := JS.Num (-1);
                    startColumn := JS.Num (-1);
                    endColumn := JS.Num (-1 + JS.len "sales");
                    message := JS.trim "Not found: Dataset proj:sales";
                    severity := MarkerSeverity.Error |}).
Proof.
  apply (handleNotFound_absent_identifier _ _ "proj:sales" "sales").
  - vm_compute. reflexivity.
  - vm_compute. reflexivity.
  - vm_compute. reflexivity.
  - vm_compute. repeat constructor.
Defined.

Lemma substring_length n m s :
  (String.length (String.substring n m s) <= m /\
   String.length (String.substring n m s) <= String.length s - n)%nat.
Proof.
  revert n m. induction s as [|c r IH]; intros n m.
  - destruct n, m; simpl; lia.
  - destruct n as [|n]; [destruct m as [|m]|]; simpl.
    + lia.
    + destruct (IH O m). lia.
    + destruct (IH n m). lia.
Qed.

Lemma prefix_length p s :
  String.prefix p s = true -> (String.length p <= String.length s)%nat.
Proof.
  revert p. induction s as [|c r IH]; intros [|a p]; simpl; try done; try lia.
  destruct (ascii_dec a c); [|done]. intros H%IH. lia.
Qed.

Lemma prefix_same_length p s :
  String.prefix p s = true -> (String.length s <= String.length p)%nat -> s = p.
Proof.
  revert p. induction s as [|c r IH]; intros [|a p]; simpl; try done; try lia.
  destruct (ascii_dec a c) as [->|]; [|done]. intros H Hl. f_equal. apply IH; [done|lia].
Qed.

(** The message of a syntax error is never the whole trimmed text. *)
Lemma syntax_message_proper response value d :
  handleSyntaxError response value = Normal (Some d) ->
  message d ≠ JS.trim response.
Proof.
  intros Hd Hm.
  destruct (JS.startsWith (JS.trim response) "Syntax error:") eqn:Hp.
  2: { unfold handleSyntaxError in Hd. by rewrite Hp in Hd. }
  remember (JS.trim response) as r eqn:Er.
  assert (Hlen := prefix_length _ _ Hp). simpl in Hlen.
  unfold handleSyntaxError in Hd. rewrite <- Er, Hp in Hd. cbn [negb] in Hd.
  destruct (locator r) as [line pos] eqn:El.
  destruct (JS.index (JS.split LF value) (JS.sub line (JS.Num 1))) as [text|] eqn:Ei;
    [|done].
  simpl in Hd. injection Hd as <-. simpl in Hm.
  unfold JS.substring in Hm.
  set (a := JS.clamp r (JS.Num (JS.len "Syntax error:"))) in *.
  set (b := JS.clamp r (JS.Num (JS.lastIndexOf r "at"))) in *.
  assert (Ha : a = 13%nat).
  { subst a. unfold JS.clamp, JS.len. simpl String.length. lia. }
  assert (Hb : (b <= String.length r)%nat).
  { subst b. unfold JS.clamp, JS.len. lia. }
  destruct (substring_length (a `min` b) (a `max` b - a `min` b) r) as [H1 H2].
  rewrite Hm in H1, H2.
  assert (r = "Syntax error:") as ->.
  { apply prefix_same_length; [done|]. simpl. lia. }
  vm_compute in El. injection El as <- <-. done.
Qed.

(** C10.  A marker of [handleNotFound] carries the whole trimmed error text
    as its message and the severity [Error]; a marker of
    [handleSyntaxError] carries a part of the trimmed text, and never the
    whole of it. *)
Theorem notFound_message_whole_text response value d response' value' d' :
  handleNotFound response value = Normal (Some d) ->
  handleSyntaxError response' value' = Normal (Some d') ->
  (message d = JS.trim response /\ severity d = MarkerSeverity.Error) /\
  ((exists pre post, JS.trim response' = pre +:+ message d' +:+ post) /\
   message d' ≠ JS.trim response').
Proof.
  intros Hd Hd'. split; [|split].
  - destruct (JS.startsWith (JS.trim response) "Not found:") eqn:Hp.
    + destruct (JS.split " " (JS.trim response) !! 3%nat) as [token|] eqn:Ht.
      * destruct (pop_split_is_Some ":" token) as [errStr He].
        rewrite (handleNotFound_marker _ _ _ _ Hp Ht He) in Hd.
        by injection Hd as <-.
      * by rewrite handleNotFound_short in Hd.
    + by rewrite handleNotFound_no_prompt in Hd.
  - destruct (JS.startsWith (JS.trim response') "Syntax error:") eqn:Hp.
    + destruct (lineInBuffer (locator (JS.trim response')).1 value') eqn:Hl.
      * destruct (handleSyntaxError_marker _ _ Hp Hl) as (d0 & Hd0 & _ & _ & Hm).
        rewrite Hd0 in Hd'. injection Hd' as <-. rewrite Hm.
        apply JS_substring_part.
      * by rewrite handleSyntaxError_outside in Hd'.
    + by rewrite handleSyntaxError_no_prompt in Hd'.
  - by apply (syntax_message_proper response' value').
Qed.

(** C10 on one text of each format. *)
Lemma notFound_message_whole_text_witness :
  (message {| startLineNumber := JS.Num 1; endLineNumber := JS.Num 1;
              startColumn := JS.Num 14; endColumn := JS.Num 15;
              message := "Not found: Table p:t";
              severity := MarkerSeverity.Error |}
   = JS.trim "  Not found: Table p:t " /\
   severity {| startLineNumber := JS.Num 1; endLineNumber := JS.Num 1;
               startColumn := JS.Num 14; endColumn := JS.Num 15;
               message := "Not found: Table p:t";
               severity := MarkerSeverity.Error |}
   = MarkerSeverity.Error) /\
  ((exists pre post,
      JS.trim "Syntax error: bad token at [1:8]" =
      pre +:+ message {| startLineNumber := JS.Num 1; endLineNumber := JS.Num 1;
                         startColumn := JS.Num 8; endColumn := JS.Num 12;
                         message := " bad token ";
                         severity := MarkerSeverity.Error |} +:+ post) /\
   message {| startLineNumber := JS.Num 1; endLineNumber := JS.Num 1;
              startColumn := JS.Num 8; endColumn := JS.Num 12;
              message := " bad token ";
              severity := MarkerSeverity.Error |}
   ≠ JS.trim "Syntax error: bad token at [1:8]").
Proof.
  apply (notFound_message_whole_text
           "  Not found: Table p:t " "SELECT * FROM t" _
           "Syntax error: bad token at [1:8]" "SELECT FROM t"); vm_compute; reflexivity.
Defined.

(** ** The controller *)

Lemma set_jobs_id w : set_jobs (jobs w) w = w.
Proof. by destruct w. Qed.

Lemma cancelled_not_running j : status j ≠ Running -> cancelled j = j.
Proof. destruct j as [r c p []]; simpl; intros H; [done|done|done]. Qed.

Lemma alter_fixed {A} (f : A -> A) (l : list A) i :
  (forall x, l !! i = Some x -> f x = x) -> alter f i l = l.
Proof.
  intros H. apply list_eq. intros k. destruct (decide (k = i)) as [->|Hne].
  - rewrite list_lookup_alter_eq. destruct (l !! i) eqn:E; simpl; [|done].
    by rewrite H.
  - by rewrite list_lookup_alter_ne.
Qed.

Lemma job_cancel_noop h w :
  (forall j, jobs w !! h = Some j -> status j ≠ Running) -> job_cancel h w = w.
Proof.
  intros H. unfold job_cancel. rewrite alter_fixed; [apply set_jobs_id|].
  intros j Hj. apply cancelled_not_running. by apply H.
Qed.

(** ** The timer queue *)

Lemma enqueue_split t q :
  exists q1 q2, q = (q1 ++ q2)%list /\ enqueue t q = (q1 ++ t :: q2)%list.
Proof.
  induction q as [|u q (q1 & q2 & E1 & E2)]; simpl.
  - by exists [], [].
  - destruct (deadline u <=? deadline t).
    + exists (u :: q1), q2. simpl. by rewrite <- E1, E2.
    + by exists [], (u :: q).
Qed.

Lemma filter_enqueue_not (P : Timer -> Prop) `{!forall t, Decision (P t)} t q :
  ¬ P t -> filter P (enqueue t q) = filter P q.
Proof.
  intros Hn. destruct (enqueue_split t q) as (q1 & q2 & -> & ->).
  rewrite !filter_app, filter_cons_False; done.
Qed.

Lemma filter_enqueue_only (P : Timer -> Prop) `{!forall t, Decision (P t)} t q :
  P t -> filter P q = [] -> filter P (enqueue t q) = [t].
Proof.
  intros Hp Hq. destruct (enqueue_split t q) as (q1 & q2 & -> & ->).
  rewrite filter_app in Hq. apply app_eq_nil in Hq as [H1 H2].
  rewrite filter_app, filter_cons_True, H1, H2; done.
Qed.

Lemma clear_checks a q :
  Forall (fun t => Some a = Some (timerId t)) (filter isCheck q) ->
  filter isCheck (filter (fun t => timerId t ≠ a) q) = [].
Proof.
  induction q as [|t q IH]; [done|].
  rewrite (filter_cons isCheck). destruct (decide (isCheck t)) as [Hc|Hc].
  - intros [Ht Hq]%Forall_cons. injection Ht as ->.
    rewrite filter_cons_False by (intros H; by apply H). by apply IH.
  - intros Hq. rewrite (filter_cons (fun t => timerId t ≠ a)).
    destruct (decide (timerId t ≠ a)); [|by apply IH].
    rewrite filter_cons_False by done. by apply IH.
Qed.

(** What a key stroke leaves behind, under the debounce property: one
    pending [checkSQL] timer, 1500 ms ahead, held by [timeoutAlarm]. *)
Lemma onKeyUp_effect w :
  debounce_inv w ->
  let w' := onKeyUp w in
  pendingChecks w' =
    [{| timerId := nextTimer w; deadline := now w + 1500; timerCallback := CheckSQL |}] /\
  timeoutAlarm w' = Some (nextTimer w) /\
  jobs w' = jobs w /\ value w' = value w /\ props w' = props w /\ now w' = now w.
Proof.
  unfold debounce_inv, pendingChecks, onKeyUp. intros Hinv.
  destruct (timeoutAlarm w) as [a|] eqn:Ha; simpl.
  - split; [|done]. apply filter_enqueue_only; [done|]. by apply clear_checks.
  - split; [|done]. apply filter_enqueue_only; [done|].
    destruct (filter isCheck (timers w)) as [|t l]; [done|].
    by apply Forall_cons in Hinv as [? _].
Qed.

Lemma filter_comm {A} (P Q : A -> Prop) `{!forall x, Decision (P x)}
    `{!forall x, Decision (Q x)} (l : list A) :
  filter P (filter Q l) = filter Q (filter P l).
Proof.
  induction l as [|x l IH]; [done|].
  rewrite (filter_cons Q), (filter_cons P).
  destruct (decide (Q x)), (decide (P x));
    rewrite ?filter_cons_True, ?filter_cons_False by done; by rewrite IH.
Qed.

Lemma fire_effect w t :
  value (fire w t) = value w /\ props (fire w t) = props w /\
  timeoutAlarm (fire w t) = timeoutAlarm w /\ timers (fire w t) = timers w /\
  nextTimer (fire w t) = nextTimer w /\ job (fire w t) = job w /\
  jobs (fire w t) =
    (jobs w ++ spawned (value w) (props w) (if decide (isCheck t) then 1 else 0))%list.
Proof.
  destruct (decide (isCheck t)) as [H|H]; unfold isCheck in H;
    unfold fire, runTimer, spawned, checkSQL.
  - rewrite H. simpl.
    destruct (String.eqb (value w) ""); simpl; by rewrite ?app_nil_r.
  - destruct (timerCallback t); [done|]. simpl.
    destruct (String.eqb (value w) ""); simpl; by rewrite ?app_nil_r.
Qed.

Lemma spawned_add text p n m :
  (spawned text p n ++ spawned text p m)%list = spawned text p (n + m).
Proof.
  unfold spawned. destruct (String.eqb text ""); [done|].
  by rewrite replicate_add.
Qed.

Lemma foldl_fire_effect due w :
  let w' := foldl fire w due in
  value w' = value w /\ props w' = props w /\
  timeoutAlarm w' = timeoutAlarm w /\ timers w' = timers w /\
  nextTimer w' = nextTimer w /\ job w' = job w /\
  jobs w' =
    (jobs w ++ spawned (value w) (props w) (length (filter isCheck due)))%list.
Proof.
  revert w. induction due as [|t due IH]; intros w; simpl.
  - unfold spawned. destruct (String.eqb (value w) ""); simpl; by rewrite app_nil_r.
  - destruct (IH (fire w t)) as (Hv & Hp & Ha & Ht & Hn & Hj & Hjs).
    destruct (fire_effect w t) as (Hv' & Hp' & Ha' & Ht' & Hn' & Hj' & Hjs').
    rewrite Hv, Hp, Ha, Ht, Hn, Hj, Hjs, Hv', Hp', Ha', Ht', Hn', Hj', Hjs'.
    repeat split. rewrite <- app_assoc, spawned_add. do 2 f_equal.
    rewrite filter_cons. by destruct (decide (isCheck t)).
Qed.

(** What the passage of time does: every pending [checkSQL] timer that is
    due creates one validation job on the text the editor holds, unless
    that text is empty; the other pending [checkSQL] timers stay. *)
Lemma advance_effect ms w :
  let target := now w + Z.max 0 ms in
  let w' := advance ms w in
  jobs w' =
    (jobs w ++ spawned (value w) (props w)
       (length (filter (fun t => deadline t <= target) (pendingChecks w))))%list /\
  pendingChecks w' = filter (fun t => ¬ deadline t <= target) (pendingChecks w) /\
  timeoutAlarm w' = timeoutAlarm w /\ value w' = value w /\ props w' = props w /\
  job w' = job w /\ now w' = target.
Proof.
  unfold advance, pendingChecks. simpl.
  set (target := now w + Z.max 0 ms).
  set (due := filter (fun t => deadline t <= target) (timers w)).
  set (later := filter (fun t => ¬ deadline t <= target) (timers w)).
  destruct (foldl_fire_effect due (set_timers later (nextTimer w) w))
    as (Hv & Hp & Ha & Ht & Hn & Hj & Hjs).
  simpl in *. rewrite Hv, Hp, Ha, Ht, Hj, Hjs. repeat split.
  - subst due. by rewrite filter_comm.
  - subst later. by rewrite filter_comm.
Qed.

Lemma debounce_inv_mounted p : debounce_inv (mounted p).
Proof.
  unfold debounce_inv, pendingChecks, mounted, handleEditorDidMount, checkSQL.
  destruct (String.eqb _ _); simpl; constructor.
Qed.

Lemma Forall_filter_keep {A} (P Q : A -> Prop) `{!forall x, Decision (Q x)} l :
  Forall P l -> Forall P (filter Q l).
Proof.
  induction 1 as [|x l Hx Hl IH]; [constructor|].
  rewrite filter_cons. destruct (decide (Q x)); [by constructor|done].
Qed.

Lemma debounce_inv_set_value text w : debounce_inv w -> debounce_inv (set_value text w).
Proof. done. Qed.

Lemma debounce_inv_onKeyUp w : debounce_inv w -> debounce_inv (onKeyUp w).
Proof.
  intros H. destruct (onKeyUp_effect w H) as (Hc & Ha & _).
  unfold debounce_inv. rewrite Hc, Ha. by repeat constructor.
Qed.

Lemma debounce_inv_advance ms w : debounce_inv w -> debounce_inv (advance ms w).
Proof.
  intros H. destruct (advance_effect ms w) as (_ & Hc & Ha & _).
  unfold debounce_inv. rewrite Hc, Ha. by apply Forall_filter_keep.
Qed.

Lemma fire_button w t :
  buttonState (state (fire w t)) =
  if decide (isCheck t) then buttonState (state w) else ButtonStates.READY.
Proof.
  destruct (decide (isCheck t)) as [H|H]; unfold isCheck in H;
    unfold fire, runTimer, checkSQL.
  - rewrite H. simpl. by destruct (String.eqb (value w) "").
  - by destruct (timerCallback t).
Qed.

(** The button after a batch of timers: Ready as soon as one of them is a
    reset timer, and otherwise what it was. *)
Lemma foldl_fire_button due w :
  (Exists (fun t => ¬ isCheck t) due ->
   buttonState (state (foldl fire w due)) = ButtonStates.READY) /\
  (buttonState (state (foldl fire w due)) = ButtonStates.READY \/
   buttonState (state (foldl fire w due)) = buttonState (state w)).
Proof.
  induction due as [|t due [IH1 IH2]] using rev_ind; simpl.
  - split; [by intros H%Exists_nil|by right].
  - rewrite foldl_snoc, fire_button. destruct (decide (isCheck t)) as [Hc|Hc].
    + split; [|done]. intros [H|H]%Exists_app; [by apply IH1|].
      by apply Exists_cons in H as [H|H%Exists_nil].
    + split; [done|by left].
Qed.

Lemma advance_button ms w :
  let target := now w + Z.max 0 ms in
  (Exists (fun t => ¬ isCheck t /\ deadline t <= target) (timers w) ->
   buttonState (state (advance ms w)) = ButtonStates.READY) /\
  (buttonState (state (advance ms w)) = ButtonStates.READY \/
   buttonState (state (advance ms w)) = buttonState (state w)) /\
  timers (advance ms w) = filter (fun t => ¬ deadline t <= target) (timers w).
Proof.
  intros target. unfold advance. fold target.
  set (due := filter (fun t => deadline t <= target) (timers w)).
  set (later := filter (fun t => ¬ deadline t <= target) (timers w)).
  destruct (foldl_fire_button due (set_timers later (nextTimer w) w)) as [H1 H2].
  destruct (foldl_fire_effect due (set_timers later (nextTimer w) w))
    as (_ & _ & _ & Ht & _).
  split; [|split]; simpl; [|done|by rewrite Ht].
  intros (t & Hin & Hc & Hd)%Exists_exists. apply H1.
  apply Exists_exists. exists t. split; [|done].
  subst due. by apply list_elem_of_filter.
Qed.

Lemma elem_of_enqueue t q : t ∈ enqueue t q.
Proof.
  destruct (enqueue_split t q) as (q1 & q2 & _ & ->).
  apply elem_of_app. right. by left.
Qed.

Lemma handleQuery_clock w : now (handleQuery w) = now w.
Proof. done. Qed.

Section Controller.

Variable JSON_parse : string -> completion json.

Lemma queryCallback_timers u w w' :
  queryCallback JSON_parse u w = Normal w' ->
  pendingChecks w' = pendingChecks w /\ timeoutAlarm w' = timeoutAlarm w.
Proof.
  destruct u as [r|msg|]; simpl.
  - destruct (JSON_parse (resp_content r)); [|done]. simpl.
    destruct (JSON_parse (resp_labels r)); [|done]. simpl.
    destruct (JSON_parse (resp_bytesProcessed r)); [|done]. simpl.
    by intros [= <-].
  - intros [= <-]. split; [|done]. unfold pendingChecks. simpl.
    by apply filter_enqueue_not.
  - by intros [= <-].
Qed.

Lemma debounce_inv_deliver h u w : debounce_inv w -> debounce_inv (deliver JSON_parse h u w).
Proof.
  intros H. unfold deliver.
  destruct (jobs w !! h) as [j|]; [|done].
  destruct (status j); try done.
  set (w1 := match u with UPending _ => w | _ => _ end).
  assert (H1 : debounce_inv w1) by (subst w1; by destruct u).
  destruct (runCallback JSON_parse (callback j) u w1) as [w'|] eqn:E; [|done].
  destruct (callback j); simpl in E.
  - apply queryCallback_timers in E as [Hc Ha].
    unfold debounce_inv. by rewrite Hc, Ha.
  - destruct u; injection E as <-; done.
Qed.

(** The debounce property holds in every world the component reaches. *)
Lemma debounce_inv_step w e : debounce_inv w -> debounce_inv (step JSON_parse w e).
Proof.
  intros H. destruct e as [|text|h u|ms|]; simpl.
  - unfold handleButtonClick, handleQuery, handleCancel, job_cancel.
    destruct (buttonState (state w)); try done. by destruct (job w).
  - by apply debounce_inv_onKeyUp, debounce_inv_set_value.
  - by apply debounce_inv_deliver.
  - by apply debounce_inv_advance.
  - done.
Qed.

Lemma debounce_inv_run p es : debounce_inv (run JSON_parse (mounted p) es).
Proof.
  unfold run. induction es as [|e es IH] using rev_ind; simpl.
  - apply debounce_inv_mounted.
  - rewrite foldl_snoc. by apply debounce_inv_step.
Qed.

(** C7.  Two edits less than 1500 ms apart, followed by 1500 ms or more
    without an edit, create exactly one validation job, a dry run of the
    text the second edit left; when that text is empty they create none,
    as [checkSQL] returns at once on an empty text. *)
Theorem debounce_two_edits w text1 text2 d d' :
  debounce_inv w -> d < 1500 -> 1500 <= d' ->
  jobs (run JSON_parse w [Edit text1; Advance d; Edit text2; Advance d']) =
    (jobs w ++ if String.eqb text2 "" then [] else [validation text2 (props w)])%list /\
  dryRunOnly (request (validation text2 (props w))) = true /\
  checkSQL (set_value "" w) = set_value "" w.
Proof.
  intros Hinv Hd Hd'. split; [|done].
  change (run JSON_parse w [Edit text1; Advance d; Edit text2; Advance d'])
    with (advance d' (onKeyUp (set_value text2
            (advance d (onKeyUp (set_value text1 w)))))).
  destruct (onKeyUp_effect (set_value text1 w)) as (Hc1 & Ha1 & Hj1 & Hv1 & Hp1 & Hn1);
    [done|].
  remember (onKeyUp (set_value text1 w)) as w1 eqn:E1. clear E1.
  destruct (advance_effect d w1) as (Hj2 & Hc2 & Ha2 & Hv2 & Hp2 & _ & Hn2).
  remember (advance d w1) as w2 eqn:E2. clear E2.
  simpl in Hc1, Ha1, Hj1, Hv1, Hp1, Hn1.
  rewrite Hc1, Hn1 in Hj2, Hc2.
  rewrite filter_cons_False, filter_nil in Hj2 by (simpl; lia).
  rewrite filter_cons_True, filter_nil in Hc2 by (simpl; lia).
  assert (Hinv2 : debounce_inv (set_value text2 w2)).
  { apply debounce_inv_set_value. unfold debounce_inv.
    rewrite Hc2, Ha2, Ha1. by repeat constructor. }
  destruct (onKeyUp_effect (set_value text2 w2) Hinv2)
    as (Hc3 & Ha3 & Hj3 & Hv3 & Hp3 & Hn3).
  remember (onKeyUp (set_value text2 w2)) as w3 eqn:E3. clear E3.
  simpl in Hc3, Ha3, Hj3, Hv3, Hp3, Hn3.
  destruct (advance_effect d' w3) as (Hj4 & _).
  rewrite Hj4, Hc3, Hn3, Hj3, Hv3, Hp3.
  rewrite filter_cons_True, filter_nil by (simpl; lia).
  rewrite Hj2, Hj1, Hp2, Hp1.
  unfold spawned. destruct (String.eqb (value w1) ""), (String.eqb text2 "");
    simpl; by rewrite ?app_nil_r.
Qed.


Lemma handleQuery_effect w :
  let w1 := handleQuery w in
  state w1 = {| buttonState := ButtonStates.PENDING; bytesProcessed := None;
                errorMsg := None |} /\
  dispatched w1 = (dispatched w ++ [resetQueryResult (props_queryId (props w))])%list /\
  jobs w1 = (jobs w ++ [submission (value w) (props w)])%list /\
  job w1 = Some (length (jobs w)) /\
  value w1 = value w /\ props w1 = props w /\ timers w1 = timers w.
Proof. done. Qed.

Lemma lookup_snoc_length {A} (l : list A) x : (l ++ [x])%list !! length l = Some x.
Proof. by rewrite lookup_app_r, Nat.sub_diag. Qed.

Lemma alter_snoc_length {A} (f : A -> A) (l : list A) x :
  alter f (length l) (l ++ [x])%list = (l ++ [f x])%list.
Proof.
  rewrite <- (Nat.add_0_r (length l)) at 1. by rewrite alter_app_r.
Qed.

(** What the polling client's report does to a running job of
    [handleQuery]. *)
Lemma deliver_running h u w j :
  jobs w !! h = Some j -> status j = Running ->
  deliver JSON_parse h u w =
  let w1 := match u with
            | UPending _ => w
            | _ => set_jobs (alter finished h (jobs w)) w
            end in
  match runCallback JSON_parse (callback j) u w1 with
  | Normal w' => w'
  | Throw _ => w1
  end.
Proof. intros Hj Hs. unfold deliver. by rewrite Hj, Hs. Qed.

Lemma deliver_not_running h u w :
  (forall j, jobs w !! h = Some j -> status j ≠ Running) ->
  deliver JSON_parse h u w = w.
Proof.
  intros H. unfold deliver. destruct (jobs w !! h) as [j|] eqn:Hj; [|done].
  specialize (H j eq_refl). by destruct (status j).
Qed.

Lemma deliver_terminal h u w j :
  jobs w !! h = Some j -> status j = Running -> jobState u ≠ JobState.Pending ->
  job (deliver JSON_parse h u w) = job w /\
  jobs (deliver JSON_parse h u w) !! h = Some (finished j).
Proof.
  intros Hj Hs Hu. rewrite (deliver_running _ _ _ _ Hj Hs).
  destruct u as [r|msg|]; [done| |]; destruct (callback j); simpl;
    by rewrite list_lookup_alter_eq, Hj.
Qed.

(** C6.  A click while the button is Ready or Error puts it in Pending,
    clears [bytesProcessed] and [errorMsg], sends [resetQueryResult] for
    the editor's query (which empties its slot in the store), and creates
    exactly one job: a request of the editor's text with [dryRunOnly] false
    and a poll interval of 2000 ms.  A second click, the button now being
    Pending, is [handleCancel]: it creates no job and cancels the first. *)
Theorem click_submits_then_cancels w :
  buttonState (state w) = ButtonStates.READY \/
  buttonState (state w) = ButtonStates.ERROR ->
  let w1 := handleButtonClick w in
  (state w1 = {| buttonState := ButtonStates.PENDING; bytesProcessed := None;
                 errorMsg := None |} /\
   dispatched w1 = (dispatched w ++ [resetQueryResult (props_queryId (props w))])%list /\
   store w1 !! props_queryId (props w) = Some None /\
   jobs w1 = (jobs w ++ [submission (value w) (props w)])%list /\
   dryRunOnly (request (submission (value w) (props w))) = false /\
   pollInterval (submission (value w) (props w)) = Some 2000 /\
   job w1 = Some (length (jobs w))) /\
  (handleButtonClick w1 = handleCancel w1 /\
   jobs (handleButtonClick w1) =
     (jobs w ++ [cancelled (submission (value w) (props w))])%list /\
   state (handleButtonClick w1) = state w1 /\
   dispatched (handleButtonClick w1) = dispatched w1).
Proof.
  intros Hb.
  assert (E : handleButtonClick w = handleQuery w).
  { unfold handleButtonClick. by destruct Hb as [-> | ->]. }
  rewrite E. destruct (handleQuery_effect w) as (Hs & Hd & Hj & Hh & _).
  split.
  - repeat split; try done.
    unfold store. rewrite Hd, foldl_snoc. simpl. apply lookup_insert_eq.
  - assert (E' : handleButtonClick (handleQuery w) = handleCancel (handleQuery w)).
    { unfold handleButtonClick. by rewrite Hs. }
    rewrite E'. unfold handleCancel. rewrite Hh. unfold job_cancel.
    rewrite Hj, alter_snoc_length. done.
Qed.

(** What [handleCancel] does in one step.  While the button is Pending and
    the job it holds is running, [handleCancel] cancels that job and leaves
    the component's state as it is; no report of the cancelled job reaches
    the component afterwards, and a second cancel changes nothing.  Without
    a job held [handleCancel] does nothing, and after the held job has
    ended, by Fail or Done, it does nothing either. *)
Theorem cancel_leaves_button_pending w h j :
  buttonState (state w) = ButtonStates.PENDING ->
  job w = Some h -> jobs w !! h = Some j -> status j = Running ->
  (state (handleCancel w) = state w /\
   buttonState (state (handleCancel w)) = ButtonStates.PENDING /\
   jobs (handleCancel w) !! h = Some (cancelled j) /\
   status (cancelled j) = Cancelled /\
   (forall u, deliver JSON_parse h u (handleCancel w) = handleCancel w) /\
   handleCancel (handleCancel w) = handleCancel w) /\
  (forall w', job w' = None -> handleCancel w' = w') /\
  (forall u, jobState u ≠ JobState.Pending ->
     handleCancel (deliver JSON_parse h u w) = deliver JSON_parse h u w).
Proof.
  intros Hb Hh Hj Hs.
  assert (Hc : jobs (handleCancel w) !! h = Some (cancelled j)).
  { unfold handleCancel. rewrite Hh. simpl. by rewrite list_lookup_alter_eq, Hj. }
  assert (Hsc : status (cancelled j) = Cancelled).
  { unfold cancelled. by rewrite Hs. }
  assert (Hjc : job (handleCancel w) = Some h).
  { unfold handleCancel. by rewrite Hh. }
  split; [|split].
  - repeat split; try done.
    + unfold handleCancel. by rewrite Hh.
    + unfold handleCancel. by rewrite Hh.
    + intros u. apply deliver_not_running. intros j' Hj'.
      rewrite Hc in Hj'. injection Hj' as <-. by rewrite Hsc.
    + unfold handleCancel at 1. rewrite Hjc. apply job_cancel_noop.
      intros j' Hj'. rewrite Hc in Hj'. injection Hj' as <-. by rewrite Hsc.
  - intros w' Hn. unfold handleCancel. by rewrite Hn.
  - intros u Hu. destruct (deliver_terminal h u w j Hj Hs Hu) as [Hjob Hjobs].
    unfold handleCancel. rewrite Hjob, Hh. apply job_cancel_noop.
    intros j' Hj'. rewrite Hjobs in Hj'. by injection Hj' as <-.
Qed.

(** C5.  A cancel while the button is Pending does not make it Ready.  On
    the example editor one click leaves the button Pending with job 1 held
    and running.  The second click is [handleCancel]: it cancels job 1 and
    writes nothing to the component's state, so the button is still
    Pending, whereas the reports Done and Fail of the same job, the sibling
    paths, make it Ready and Error.  After the cancel, a further click and a
    report for the cancelled job change nothing.  The two other parts of
    the claim hold: without a job held, and after the held job has ended,
    [handleCancel] changes nothing.  In no world does [handleCancel] write
    the component's state. *)
Theorem cancel_does_not_reset_button :
  let pending := run JSON_parse (mounted exampleProps) [Click] in
  let stopped := run JSON_parse pending [Click] in
  let ended := run JSON_parse pending [Deliver 1 UDone] in
  (buttonState (state pending) = ButtonStates.PENDING /\
   job pending = Some 1%nat /\
   status <$> jobs pending !! 1%nat = Some Running) /\
  (stopped = handleCancel pending /\
   state stopped = state pending /\
   buttonState (state stopped) = ButtonStates.PENDING /\
   status <$> jobs stopped !! 1%nat = Some Cancelled) /\
  (buttonState (state ended) = ButtonStates.READY /\
   buttonState (state (run JSON_parse pending [Deliver 1 (UFail "boom")]))
     = ButtonStates.ERROR) /\
  (run JSON_parse stopped [Click] = stopped /\
   run JSON_parse stopped [Deliver 1 UDone] = stopped) /\
  (job (mounted exampleProps) = None /\
   handleCancel (mounted exampleProps) = mounted exampleProps) /\
  (handleCancel ended = ended /\
   buttonState (state (handleCancel ended)) = buttonState (state ended)) /\
  (forall w, state (handleCancel w) = state w).
Proof.
  repeat split; try (vm_compute; reflexivity).
  intros w. unfold handleCancel. by destruct (job w).
Qed.

Lemma deliver_query_effect h w j :
  jobs w !! h = Some j -> status j = Running -> callback j = QueryCallback ->
  (forall msg,
     buttonState (state (deliver JSON_parse h (UFail msg) w)) = ButtonStates.ERROR /\
     jobs (deliver JSON_parse h (UFail msg) w) = alter finished h (jobs w)) /\
  buttonState (state (deliver JSON_parse h UDone w)) = ButtonStates.READY.
Proof.
  intros Hj Hs Hc. split; [intros msg|];
    rewrite (deliver_running _ _ _ _ Hj Hs), Hc; done.
Qed.

(** X13.  The literal instance of C2's round trip holds: as long as no
    timer fires, submit, fail, submit again and done end in Ready, like
    submit and done. *)
Lemma roundtrip_before_timer w msg :
  buttonState (state w) ≠ ButtonStates.PENDING ->
  let h := length (jobs w) in
  buttonState (state (run JSON_parse w
    [Click; Deliver h (UFail msg); Click; Deliver (S h) UDone])) = ButtonStates.READY /\
  buttonState (state (run JSON_parse w [Click; Deliver h UDone])) = ButtonStates.READY.
Proof.
  intros Hb h.
  assert (E : handleButtonClick w = handleQuery w).
  { unfold handleButtonClick. by destruct (buttonState (state w)). }
  destruct (handleQuery_effect w) as (_ & _ & Hj & _).
  assert (Hl : jobs (handleQuery w) !! h = Some (submission (value w) (props w))).
  { rewrite Hj. apply lookup_snoc_length. }
  destruct (deliver_query_effect h _ _ Hl eq_refl eq_refl) as [Hfail Hdone].
  split; [|by rewrite <- E in Hdone].
  destruct (Hfail msg) as [Hb2 Hj2].
  change (run JSON_parse w [Click; Deliver h (UFail msg); Click; Deliver (S h) UDone])
    with (deliver JSON_parse (S h) UDone (handleButtonClick
            (deliver JSON_parse h (UFail msg) (handleButtonClick w)))).
  rewrite E.
  remember (deliver JSON_parse h (UFail msg) (handleQuery w)) as w2 eqn:E2. clear E2.
  assert (E3 : handleButtonClick w2 = handleQuery w2).
  { unfold handleButtonClick. by rewrite Hb2. }
  rewrite E3. destruct (handleQuery_effect w2) as (_ & _ & Hj3 & _).
  assert (Hl3 : jobs (handleQuery w2) !! S h = Some (submission (value w2) (props w2))).
  { rewrite Hj3.
    replace (S h) with (length (jobs w2)); [apply lookup_snoc_length|].
    rewrite Hj2, length_alter, Hj, length_app. simpl. lia. }
  by destruct (deliver_query_effect (S h) _ _ Hl3 eq_refl eq_refl) as [_ ?].
Qed.

Lemma deliver_fail_effect h w j msg :
  jobs w !! h = Some j -> status j = Running -> callback j = QueryCallback ->
  let w' := deliver JSON_parse h (UFail msg) w in
  buttonState (state w') = ButtonStates.ERROR /\
  timers w' = enqueue {| timerId := nextTimer w; deadline := now w + 2000;
                         timerCallback := ResetButton |} (timers w) /\
  now w' = now w /\ value w' = value w /\ props w' = props w.
Proof.
  intros Hj Hs Hc. simpl. by rewrite (deliver_running _ _ _ _ Hj Hs), Hc.
Qed.

(** The race of C2 in general: whenever a failure is followed by a new
    submission within 2000 ms, the reset timer of the failure fires with the
    new job running and puts the button back to Ready. *)
Lemma stale_reset_general w msg d1 d2 :
  buttonState (state w) ≠ ButtonStates.PENDING ->
  0 <= d1 < 2000 -> 0 <= d2 -> 2000 <= d1 + d2 ->
  let h := length (jobs w) in
  let before := run JSON_parse w [Click; Deliver h (UFail msg); Advance d1; Click] in
  let after := run JSON_parse before [Advance d2] in
  exists h2,
    (buttonState (state before) = ButtonStates.PENDING /\
     job before = Some h2 /\
     jobs before !! h2 = Some (submission (value w) (props w))) /\
    (buttonState (state after) = ButtonStates.READY /\
     job after = Some h2 /\
     jobs after !! h2 = Some (submission (value w) (props w))).
Proof.
  intros Hb Hd1 Hd2 Hsum h before after.
  assert (E : handleButtonClick w = handleQuery w).
  { unfold handleButtonClick. by destruct (buttonState (state w)). }
  destruct (handleQuery_effect w) as (_ & _ & Hj1 & _ & Hv1 & Hp1 & _).
  assert (Hn1 := handleQuery_clock w).
  assert (Hl : jobs (handleQuery w) !! h = Some (submission (value w) (props w))).
  { rewrite Hj1. apply lookup_snoc_length. }
  destruct (deliver_fail_effect h _ _ msg Hl eq_refl eq_refl)
    as (Hb2 & Ht2 & Hn2 & Hv2 & Hp2).
  subst before after.
  change (run JSON_parse w [Click; Deliver h (UFail msg); Advance d1; Click])
    with (handleButtonClick (advance d1
            (deliver JSON_parse h (UFail msg) (handleButtonClick w)))).
  rewrite E.
  remember (handleQuery w) as w1 eqn:E1. clear E1.
  remember (deliver JSON_parse h (UFail msg) w1) as w2 eqn:E2. clear E2.
  set (t := {| timerId := nextTimer w1; deadline := now w1 + 2000;
               timerCallback := ResetButton |}) in *.
  destruct (advance_button d1 w2) as (_ & Hb3 & Ht3).
  destruct (advance_effect d1 w2) as (_ & _ & _ & Hv3 & Hp3 & _ & Hn3).
  remember (advance d1 w2) as w3 eqn:E3. clear E3.
  assert (Hin3 : t ∈ timers w3).
  { rewrite Ht3, Ht2. apply list_elem_of_filter. split; [|apply elem_of_enqueue].
    subst t. simpl. lia. }
  assert (E4 : handleButtonClick w3 = handleQuery w3).
  { unfold handleButtonClick. destruct Hb3 as [-> | ->]; [done|by rewrite Hb2]. }
  rewrite E4.
  destruct (handleQuery_effect w3) as (Hs4 & _ & Hj4 & Hh4 & _ & _ & Ht4).
  assert (Hn4 := handleQuery_clock w3).
  remember (handleQuery w3) as w4 eqn:E4'. clear E4'.
  assert (Hl4 : jobs w4 !! length (jobs w3) = Some (submission (value w) (props w))).
  { rewrite Hj4, Hv3, Hp3, Hv2, Hp2, Hv1, Hp1. apply lookup_snoc_length. }
  exists (length (jobs w3)). split.
  - by rewrite Hs4.
  - change (run JSON_parse w4 [Advance d2]) with (advance d2 w4).
    destruct (advance_button d2 w4) as (Hb5 & _).
    destruct (advance_effect d2 w4) as (Hj5 & _ & _ & _ & _ & Hh5 & _).
    split; [|split].
    + apply Hb5. apply Exists_exists. exists t.
      split; [by rewrite Ht4|]. split; [done|]. subst t. simpl. lia.
    + by rewrite Hh5.
    + rewrite Hj5. by apply lookup_app_l_Some.
Qed.

(** C2.  The stale timer does clobber the new state.  Submit, fail, submit
    again within the 2000 ms: the button is Pending and job 2 is running.
    When the timer of the failure then fires, the button is Ready although
    job 2 is still running and still held, and the next click submits a
    third job instead of cancelling the second. *)
Theorem stale_reset_clobbers_pending :
  let before := run JSON_parse (mounted exampleProps)
                  [Click; Deliver 1 (UFail "boom"); Advance 500; Click] in
  let after := run JSON_parse before [Advance 1500] in
  (buttonState (state before) = ButtonStates.PENDING /\
   job before = Some 2%nat /\
   status <$> jobs before !! 2%nat = Some Running /\
   timers before = [{| timerId := 1; deadline := 2000; timerCallback := ResetButton |}]) /\
  (buttonState (state after) = ButtonStates.READY /\
   job after = Some 2%nat /\
   status <$> jobs after !! 2%nat = Some Running /\
   timers after = []) /\
  (status <$> jobs (run JSON_parse after [Click]) !! 2%nat = Some Running /\
   length (jobs (run JSON_parse after [Click])) = S (length (jobs after))).
Proof. vm_compute. repeat split. Qed.

End Controller.

(** C7 on the example editor: two edits 400 ms apart, then 1500 ms. *)
Lemma debounce_two_edits_witness :
  jobs (run (fun _ => Throw SyntaxError) (mounted exampleProps)
          [Edit "SELECT"; Advance 400; Edit "SELECT 2"; Advance 1500]) =
    (jobs (mounted exampleProps) ++
     if String.eqb "SELECT 2" "" then []
     else [validation "SELECT 2" (props (mounted exampleProps))])%list /\
  dryRunOnly (request (validation "SELECT 2" (props (mounted exampleProps)))) = true /\
  checkSQL (set_value "" (mounted exampleProps)) = set_value "" (mounted exampleProps).
Proof.
  apply debounce_two_edits.
  - vm_compute. constructor.
  - lia.
  - lia.
Defined.

(** C6 on the example editor, just mounted. *)
Lemma click_submits_then_cancels_witness :
  let w := mounted exampleProps in
  let w1 := handleButtonClick w in
  (state w1 = {| buttonState := ButtonStates.PENDING; bytesProcessed := None;
                 errorMsg := None |} /\
   dispatched w1 = (dispatched w ++ [resetQueryResult (props_queryId (props w))])%list /\
   store w1 !! props_queryId (props w) = Some None /\
   jobs w1 = (jobs w ++ [submission (value w) (props w)])%list /\
   dryRunOnly (request (submission (value w) (props w))) = false /\
   pollInterval (submission (value w) (props w)) = Some 2000 /\
   job w1 = Some (length (jobs w))) /\
  (handleButtonClick w1 = handleCancel w1 /\
   jobs (handleButtonClick w1) =
     (jobs w ++ [cancelled (submission (value w) (props w))])%list /\
   state (handleButtonClick w1) = state w1 /\
   dispatched (handleButtonClick w1) = dispatched w1).
Proof.
  apply (click_submits_then_cancels (mounted exampleProps)).
  left. vm_compute. reflexivity.
Defined.

(** The step lemma of [handleCancel] on the example editor, one click after
    it is mounted. *)
Lemma cancel_leaves_button_pending_witness :
  let parse := fun _ : string => @Throw json SyntaxError in
  let w := handleButtonClick (mounted exampleProps) in
  let j := submission "SELECT 1" exampleProps in
  (state (handleCancel w) = state w /\
   buttonState (state (handleCancel w)) = ButtonStates.PENDING /\
   jobs (handleCancel w) !! 1%nat = Some (cancelled j) /\
   status (cancelled j) = Cancelled /\
   (forall u, deliver parse 1 u (handleCancel w) = handleCancel w) /\
   handleCancel (handleCancel w) = handleCancel w) /\
  (forall w', job w' = None -> handleCancel w' = w') /\
  (forall u, jobState u ≠ JobState.Pending ->
     handleCancel (deliver parse 1 u w) = deliver parse 1 u w).
Proof.
  intros parse w j.
  apply (cancel_leaves_button_pending parse w 1 j); vm_compute; reflexivity.
Defined.

(** * Further properties of the code *)
(** ** The two formats exclude each other *)

Lemma prompts_exclusive r :
  JS.startsWith r "Not found:" = true -> JS.startsWith r "Syntax error:" = false.
Proof.
  unfold JS.startsWith. destruct r as [|c r]; [done|]. cbn [String.prefix].
  destruct (ascii_dec "N" c) as [<-|]; [|done]. intros _.
  destruct (ascii_dec "S" "N"); [discriminate|done].
Qed.

(** X1.  No error text is taken by both handlers: for every text and buffer
    at least one of them returns without a marker, so the marker set after
    the failure callback does not depend on the order of the two calls. *)
Theorem handlers_exclusive response value markers :
  (handleNotFound response value = Normal None \/
   handleSyntaxError response value = Normal None) /\
  onValidationFail response value markers =
    applyHandler (handleSyntaxError response value)
      (applyHandler (handleNotFound response value) markers).
Proof.
  assert (H : handleNotFound response value = Normal None \/
              handleSyntaxError response value = Normal None).
  { destruct (JS.startsWith (JS.trim response) "Not found:") eqn:Hp.
    - right. apply handleSyntaxError_no_prompt. by apply prompts_exclusive.
    - left. by apply handleNotFound_no_prompt. }
  split; [done|]. unfold onValidationFail.
  destruct H as [-> | ->]; simpl.
  - by destruct (handleSyntaxError response value) as [[?|]|].
  - by destruct (handleNotFound response value) as [[?|]|].
Qed.

(** ** The marker of [handleNotFound], read backwards *)

Lemma indexOf_from_upper n s i :
  0 <= i -> JS.indexOf_from i s n <= i + JS.len s.
Proof.
  revert i. unfold JS.len.
  induction s as [|c r IH]; intros i Hi; cbn [JS.indexOf_from String.length].
  - destruct (String.prefix n ""); lia.
  - destruct (String.prefix n (String c r)); [lia|].
    specialize (IH (i + 1)). lia.
Qed.

Lemma last_match_decompose {A} (P : A -> Prop) `{!forall x, Decision (P x)} (l : list A) :
  Forall (fun x => ¬ P x) l \/
  exists l1 x l2, l = (l1 ++ x :: l2)%list /\ P x /\ Forall (fun y => ¬ P y) l2.
Proof.
  induction l as [|x l [IH|(l1 & y & l2 & -> & Hy & Hl2)]].
  - by left.
  - destruct (decide (P x)) as [Hx|Hx].
    + right. by exists [], x, l.
    + left. by constructor.
  - right. by exists (x :: l1), y, l2.
Qed.

Lemma scan_spec errStr texts :
  scan errStr texts 0 (-1) (-1) = (-1, -1) /\
    Forall (fun text => JS.indexOf text errStr = -1) texts
  \/ exists i text,
      texts !! i = Some text /\
      JS.indexOf text errStr ≠ -1 /\
      Forall (fun text' => JS.indexOf text' errStr = -1) (drop (S i) texts) /\
      scan errStr texts 0 (-1) (-1) = (Z.of_nat i + 1, JS.indexOf text errStr).
Proof.
  destruct (last_match_decompose (fun text => JS.indexOf text errStr ≠ -1) texts)
    as [H|(l1 & text & l2 & -> & Hm & Hl2)].
  - left. assert (H' : Forall (fun text => JS.indexOf text errStr = -1) texts).
    { eapply Forall_impl; [exact H|]. intros x Hx. simpl in Hx.
      destruct (decide (JS.indexOf x errStr = -1)); [done|by destruct Hx]. }
    split; [|done]. apply scan_no_match. by apply Forall_forall.
  - right. exists (length l1), text.
    assert (Hl2' : Forall (fun text' => JS.indexOf text' errStr = -1) l2).
    { eapply Forall_impl; [exact Hl2|]. intros x Hx. simpl in Hx.
      destruct (decide (JS.indexOf x errStr = -1)); [done|by destruct Hx]. }
    split; [by rewrite list_lookup_middle|]. split; [done|]. split.
    + rewrite cons_middle, app_assoc, drop_app_length'; [done|].
      rewrite length_app. simpl. lia.
    + rewrite scan_last_match; [f_equal; lia|done|by apply Forall_forall].
Qed.

(** X2.  Whatever marker [handleNotFound] sets is sound: there is an
    identifier, the last piece of the text's fourth token, such that either
    no line of the buffer holds it and line and start column are both -1,
    or the marker is on a line of the buffer that holds the identifier at
    the start column (its first occurrence there), no later line holds it,
    and line and column are within the buffer; the end column is the start
    column plus the identifier's length in both cases. *)
Theorem handleNotFound_marker_sound response value d :
  handleNotFound response value = Normal (Some d) ->
  exists token errStr line pos,
    JS.split " " (JS.trim response) !! 3%nat = Some token /\
    JS.pop (JS.split ":" token) = Some errStr /\
    startLineNumber d = JS.Num line /\ endLineNumber d = JS.Num line /\
    startColumn d = JS.Num pos /\ endColumn d = JS.Num (pos + JS.len errStr) /\
    (line = -1 /\ pos = -1 /\
       Forall (fun text => JS.indexOf text errStr = -1) (JS.split LF value)
     \/ exists text,
         JS.split LF value !! Z.to_nat (line - 1) = Some text /\
         1 <= line <= Z.of_nat (length (JS.split LF value)) /\
         0 <= pos /\ pos + JS.len errStr <= JS.len text /\
         String.substring (Z.to_nat pos) (String.length errStr) text = errStr /\
         pos = JS.indexOf text errStr /\
         Forall (fun text' => JS.indexOf text' errStr = -1)
                (drop (Z.to_nat line) (JS.split LF value))).
Proof.
  intros Hd.
  destruct (JS.startsWith (JS.trim response) "Not found:") eqn:Hp.
  2: { by rewrite handleNotFound_no_prompt in Hd. }
  destruct (JS.split " " (JS.trim response) !! 3%nat) as [token|] eqn:Ht.
  2: { by rewrite handleNotFound_short in Hd. }
  destruct (pop_split_is_Some ":" token) as [errStr He].
  rewrite (handleNotFound_marker _ _ _ _ Hp Ht He) in Hd.
  injection Hd as <-. cbn [startLineNumber endLineNumber startColumn endColumn].
  exists token, errStr.
  destruct (scan_spec errStr (JS.split LF value))
    as [[Hs Hno]|(i & text & Hi & Hm & Hafter & Hs)]; rewrite Hs; cbn [fst snd].
  - exists (-1), (-1). repeat split; try done. by left.
  - exists (Z.of_nat i + 1), (JS.indexOf text errStr). repeat split; try done.
    right. exists text.
    destruct (indexOf_occurrence _ _ Hm) as [Hge Hsub].
    replace (Z.to_nat (Z.of_nat i + 1 - 1)) with i by lia.
    replace (Z.to_nat (Z.of_nat i + 1)) with (S i) by lia.
    apply lookup_lt_Some in Hi as Hlt.
    repeat split; try done; try lia.
    destruct (substring_length (Z.to_nat (JS.indexOf text errStr))
                (String.length errStr) text) as [_ Hl].
    rewrite Hsub in Hl.
    pose proof (indexOf_from_upper errStr text 0 ltac:(lia)) as Hu.
    fold (JS.indexOf text errStr) in Hu. unfold JS.len in *. lia.
Qed.

(** X2 on the example of the specification: the marker found is on the
    last line that holds the identifier. *)
Lemma handleNotFound_marker_sound_witness :
  let d := {| startLineNumber := JS.Num 2; endLineNumber := JS.Num 2;
              startColumn := JS.Num 10; endColumn := JS.Num 15;
              message := "Not found: Table project:table";
              severity := MarkerSeverity.Error |} in
  let response := "Not found: Table project:table" in
  let value := buffer ["SELECT *"; "     FROM table"] in
  exists token errStr line pos,
    JS.split " " (JS.trim response) !! 3%nat = Some token /\
    JS.pop (JS.split ":" token) = Some errStr /\
    startLineNumber d = JS.Num line /\ endLineNumber d = JS.Num line /\
    startColumn d = JS.Num pos /\ endColumn d = JS.Num (pos + JS.len errStr) /\
    (line = -1 /\ pos = -1 /\
       Forall (fun text => JS.indexOf text errStr = -1) (JS.split LF value)
     \/ exists text,
         JS.split LF value !! Z.to_nat (line - 1) = Some text /\
         1 <= line <= Z.of_nat (length (JS.split LF value)) /\
         0 <= pos /\ pos + JS.len errStr <= JS.len text /\
         String.substring (Z.to_nat pos) (String.length errStr) text = errStr /\
         pos = JS.indexOf text errStr /\
         Forall (fun text' => JS.indexOf text' errStr = -1)
                (drop (Z.to_nat line) (JS.split LF value))).
Proof.
  intros d response value.
  apply (handleNotFound_marker_sound response value d).
  vm_compute. reflexivity.
Defined.

(** ** The end column of a syntax error *)

Lemma get_beyond s k : (String.length s <= k)%nat -> String.get k s = None.
Proof.
  revert k. induction s as [|c r IH]; intros k H; [by destruct k|].
  destruct k as [|k]; simpl in *; [lia|]. apply IH. lia.
Qed.

Lemma prefix_char c s :
  String.prefix (String c "") s = true <-> String.get 0 s = Some c.
Proof.
  destruct s as [|b s]; [done|]. cbn [String.prefix String.get].
  destruct (ascii_dec c b) as [->|Hn].
  - by rewrite prefix_nil_l.
  - split; [done|]. intros [= ->]. done.
Qed.

(** [indexOf] with a needle of one character finds its first position. *)
Lemma indexOf_char c s i :
  0 <= i ->
  JS.indexOf_from i s (String c "") = -1 /\
    (forall k, String.get k s ≠ Some c)
  \/ i <= JS.indexOf_from i s (String c "") /\
    String.get (Z.to_nat (JS.indexOf_from i s (String c "") - i)) s = Some c /\
    (forall k, (k < Z.to_nat (JS.indexOf_from i s (String c "") - i))%nat ->
               String.get k s ≠ Some c).
Proof.
  revert i. induction s as [|b r IH]; intros i Hi.
  - left. split; [done|]. by intros [|k].
  - cbn [JS.indexOf_from].
    destruct (String.prefix (String c "") (String b r)) eqn:E.
    + right. split; [lia|]. rewrite Z.sub_diag. split; [by apply prefix_char|].
      intros k Hk. simpl in Hk. lia.
    + assert (Hb : b ≠ c).
      { intros ->. assert (H : String.get 0 (String c r) = Some c) by done.
        apply prefix_char in H. congruence. }
      destruct (IH (i + 1) ltac:(lia)) as [[E1 Hno]|(Hle & Hget & Hfirst)].
      * left. split; [done|]. intros [|k]; simpl; [congruence|apply Hno].
      * right. split; [lia|].
        set (x := JS.indexOf_from (i + 1) r (String c "")) in *.
        replace (Z.to_nat (x - i)) with (S (Z.to_nat (x - (i + 1)))) by lia.
        split; [done|]. intros [|k] Hk; simpl; [congruence|].
        apply Hfirst. lia.
Qed.

Lemma substring1_get text p k :
  0 <= p ->
  String.get k (JS.substring1 text (JS.Num p)) =
  if decide (Z.to_nat p + k < String.length text)%nat
  then String.get (Z.to_nat p + k) text else None.
Proof.
  intros Hp. unfold JS.substring1, JS.substring, JS.clamp, JS.len.
  set (n := String.length text).
  replace (Z.to_nat (Z.min (Z.max p 0) (Z.of_nat n))) with (Nat.min (Z.to_nat p) n) by lia.
  replace (Z.to_nat (Z.min (Z.max (Z.of_nat n) 0) (Z.of_nat n))) with n by lia.
  replace (Nat.min (Nat.min (Z.to_nat p) n) n) with (Nat.min (Z.to_nat p) n) by lia.
  replace (Nat.max (Nat.min (Z.to_nat p) n) n) with n by lia.
  destruct (decide (Z.to_nat p + k < n)%nat) as [H|H].
  - rewrite substring_correct1 by lia. f_equal. lia.
  - apply substring_correct2. lia.
Qed.

(** X3.  For a syntax error whose locator gives a line [z] of the buffer
    and a column [p] from 0 to 2^53, the range in which the code's
    [parseInt] is exact, the marker starts at column [p] of line [z]; its
    end column is one more than the index (from 0) of the first space of
    that line at index [p] or later, and the length of the line plus one
    when there is no such space. *)
Theorem handleSyntaxError_end_column response value d z p :
  handleSyntaxError response value = Normal (Some d) ->
  locator (JS.trim response) = (JS.Num z, JS.Num p) ->
  0 <= p <= 2 ^ 53 ->
  exists text,
    JS.split LF value !! Z.to_nat (z - 1) = Some text /\
    startLineNumber d = JS.Num z /\ startColumn d = JS.Num p /\
    ((forall k, (Z.to_nat p <= k)%nat -> String.get k text ≠ Some " "%char) /\
       endColumn d = JS.Num (JS.len text + 1)
     \/ exists k,
         (Z.to_nat p <= k < String.length text)%nat /\
         String.get k text = Some " "%char /\
         (forall k', (Z.to_nat p <= k' < k)%nat -> String.get k' text ≠ Some " "%char) /\
         endColumn d = JS.Num (Z.of_nat k + 1)).
Proof.
  intros Hd Hloc [Hp _]. unfold handleSyntaxError in Hd.
  destruct (JS.startsWith (JS.trim response) "Syntax error:"); [|done].
  cbn [negb] in Hd. rewrite Hloc in Hd.
  destruct (JS.index (JS.split LF value) (JS.sub (JS.Num z) (JS.Num 1)))
    as [text|] eqn:Hi; [|done].
  cbn in Hd. injection Hd as <-.
  cbn [startLineNumber startColumn endColumn].
  exists text. split.
  { simpl in Hi. by destruct (0 <=? z - 1). }
  split; [done|]. split; [done|].
  unfold JS.indexOf.
  destruct (indexOf_char " " (JS.substring1 text (JS.Num p)) 0 ltac:(lia))
    as [[E Hno]|(Hle & Hget & Hfirst)].
  - left. rewrite E. split; [|done]. intros k Hk Hg.
    apply (Hno (k - Z.to_nat p)%nat). rewrite substring1_get by done.
    replace (Z.to_nat p + (k - Z.to_nat p))%nat with k by lia.
    destruct (decide (k < String.length text)%nat) as [|Hge]; [done|].
    rewrite get_beyond in Hg by lia. done.
  - right. set (r := JS.indexOf_from 0 (JS.substring1 text (JS.Num p)) " ") in *.
    rewrite Z.sub_0_r in Hget, Hfirst. rewrite substring1_get in Hget by done.
    destruct (decide (Z.to_nat p + Z.to_nat r < String.length text)%nat)
      as [Hlt|]; [|done].
    exists (Z.to_nat p + Z.to_nat r)%nat. split; [lia|]. split; [done|]. split.
    + intros k' Hk' Hg. apply (Hfirst (k' - Z.to_nat p)%nat); [lia|].
      rewrite substring1_get by done.
      replace (Z.to_nat p + (k' - Z.to_nat p))%nat with k' by lia.
      destruct (decide (k' < String.length text)%nat); [done|lia].
    + destruct (Z.eqb_spec r (-1)); [lia|]. simpl. f_equal. lia.
Qed.

Lemma handleSyntaxError_end_column_witness :
  let d := {| startLineNumber := JS.Num 2; endLineNumber := JS.Num 2;
              startColumn := JS.Num 3; endColumn := JS.Num 5;
              message := " bad "; severity := MarkerSeverity.Error |} in
  exists text,
    JS.split LF (buffer ["SELECT 1"; "FROM t WHERE"]) !! Z.to_nat (2 - 1) = Some text /\
    startLineNumber d = JS.Num 2 /\ startColumn d = JS.Num 3 /\
    ((forall k, (Z.to_nat 3 <= k)%nat -> String.get k text ≠ Some " "%char) /\
       endColumn d = JS.Num (JS.len text + 1)
     \/ exists k,
         (Z.to_nat 3 <= k < String.length text)%nat /\
         String.get k text = Some " "%char /\
         (forall k', (Z.to_nat 3 <= k' < k)%nat -> String.get k' text ≠ Some " "%char) /\
         endColumn d = JS.Num (Z.of_nat k + 1)).
Proof.
  intros d.
  apply (handleSyntaxError_end_column "Syntax error: bad at [2:3]"
           (buffer ["SELECT 1"; "FROM t WHERE"]) d).
  - vm_compute. reflexivity.
  - vm_compute. reflexivity.
  - lia.
Defined.

(** ** White space around the error text *)

Lemma trimStart_head s :
  JS.trimStart s = "" \/
  exists c r, JS.trimStart s = String c r /\ JS.isWhiteSpace c = false.
Proof.
  induction s as [|c r IH]; [by left|]. simpl.
  destruct (JS.isWhiteSpace c) eqn:E; [done|]. right. by exists c, r.
Qed.

Lemma trimEnd_idemp s : JS.trimEnd (JS.trimEnd s) = JS.trimEnd s.
Proof.
  induction s as [|c r IH]; [done|]. cbn [JS.trimEnd].
  destruct (JS.trimEnd r) as [|c' r'] eqn:E.
  - destruct (JS.isWhiteSpace c) eqn:Ec; [done|]. simpl. by rewrite Ec.
  - cbn [JS.trimEnd]. cbn [JS.trimEnd] in IH.
    destruct (JS.trimEnd r') as [|c'' r''] eqn:E'.
    + destruct (JS.isWhiteSpace c'); [done|]. by rewrite IH.
    + by rewrite IH.
Qed.

Lemma trimEnd_head c r :
  JS.isWhiteSpace c = false -> exists r', JS.trimEnd (String c r) = String c r'.
Proof.
  intros H. cbn [JS.trimEnd]. destruct (JS.trimEnd r); [rewrite H|]; eauto.
Qed.

Lemma trim_idemp s : JS.trim (JS.trim s) = JS.trim s.
Proof.
  unfold JS.trim. destruct (trimStart_head s) as [->|(c & r & -> & Hc)]; [done|].
  destruct (trimEnd_head c r Hc) as [r' E]. rewrite E.
  rewrite trimStart_id by done. rewrite <- E. apply trimEnd_idemp.
Qed.

Lemma trimStart_white_cons c p :
  JS.trimStart (String c p) = "" -> JS.isWhiteSpace c = true /\ JS.trimStart p = "".
Proof. cbn [JS.trimStart]. by destruct (JS.isWhiteSpace c). Qed.

Lemma trimStart_app_white pre s :
  JS.trimStart pre = "" -> JS.trimStart (pre +:+ s) = JS.trimStart s.
Proof.
  induction pre as [|c p IH]; [done|]. intros [Hc Hp]%trimStart_white_cons.
  change (JS.trimStart (String c (p +:+ s)) = JS.trimStart s).
  cbn [JS.trimStart]. rewrite Hc. by apply IH.
Qed.

Lemma trimEnd_white post : JS.trimStart post = "" -> JS.trimEnd post = "".
Proof.
  induction post as [|c p IH]; [done|]. intros [Hc Hp]%trimStart_white_cons.
  cbn [JS.trimEnd]. by rewrite IH, Hc.
Qed.

Lemma trimEnd_app_white s post :
  JS.trimStart post = "" -> JS.trimEnd (s +:+ post) = JS.trimEnd s.
Proof.
  intros Hp. induction s as [|c r IH]; [by apply trimEnd_white|].
  change (JS.trimEnd (String c (r +:+ post)) = JS.trimEnd (String c r)).
  cbn [JS.trimEnd]. by rewrite IH.
Qed.

Lemma trimStart_app_head s c r post :
  JS.trimStart s = String c r -> JS.trimStart (s +:+ post) = String c r +:+ post.
Proof.
  induction s as [|b s IH]; [done|].
  change (JS.trimStart (String b s) = String c r ->
          JS.trimStart (String b (s +:+ post)) = String c r +:+ post).
  cbn [JS.trimStart]. destruct (JS.isWhiteSpace b); [done|]. by intros <-.
Qed.

Lemma trim_padding pre post s :
  JS.trimStart pre = "" -> JS.trimStart post = "" ->
  JS.trim (pre +:+ s +:+ post) = JS.trim s.
Proof.
  intros Hpre Hpost. unfold JS.trim. rewrite trimStart_app_white by done.
  destruct (trimStart_head s) as [E|(c & r & E & Hc)].
  - rewrite trimStart_app_white by done. by rewrite Hpost, E.
  - rewrite (trimStart_app_head _ _ _ _ E), E. by apply trimEnd_app_white.
Qed.

(** X4.  White space around the error text does not matter: with any
    padding of white space before and after it, each handler gives what it
    gives on the text itself, and what it gives on the trimmed text. *)
Theorem handlers_ignore_padding pre post response value :
  JS.trimStart pre = "" -> JS.trimStart post = "" ->
  (handleNotFound (pre +:+ response +:+ post) value = handleNotFound response value /\
   handleSyntaxError (pre +:+ response +:+ post) value
     = handleSyntaxError response value) /\
  (handleNotFound (JS.trim response) value = handleNotFound response value /\
   handleSyntaxError (JS.trim response) value = handleSyntaxError response value).
Proof.
  intros Hpre Hpost. split.
  - unfold handleNotFound, handleSyntaxError. by rewrite trim_padding.
  - unfold handleNotFound, handleSyntaxError. by rewrite trim_idemp.
Qed.

Lemma handlers_ignore_padding_witness :
  (handleNotFound ("  " +:+ "Not found: Table p:t" +:+ String LF " ") "SELECT t"
     = handleNotFound "Not found: Table p:t" "SELECT t" /\
   handleSyntaxError ("  " +:+ "Not found: Table p:t" +:+ String LF " ") "SELECT t"
     = handleSyntaxError "Not found: Table p:t" "SELECT t") /\
  (handleNotFound (JS.trim "Not found: Table p:t") "SELECT t"
     = handleNotFound "Not found: Table p:t" "SELECT t" /\
   handleSyntaxError (JS.trim "Not found: Table p:t") "SELECT t"
     = handleSyntaxError "Not found: Table p:t" "SELECT t").
Proof.
  apply (handlers_ignore_padding "  " (String LF " ")); vm_compute; reflexivity.
Defined.

(** ** The mount *)

Lemma queryValue_nonempty p : String.eqb (queryValue p) "" = false.
Proof.
  unfold queryValue. destruct (iniQuery p) as [q|]; [|done].
  by destruct (String.eqb q "") eqn:E.
Qed.

(** X5.  The editor never starts empty: without an initial query, or with
    an empty one, it shows "SELECT * FROM *".  So the mount always creates
    exactly one job, a dry run of the first text, with the button Ready, no
    marker, no timer and nothing sent to the store. *)
Theorem mount_validates_once p :
  queryValue p ≠ "" /\
  value (mounted p) = queryValue p /\
  jobs (mounted p) = [validation (queryValue p) p] /\
  buttonState (state (mounted p)) = ButtonStates.READY /\
  job (mounted p) = None /\ markers (mounted p) = [] /\
  timers (mounted p) = [] /\ dispatched (mounted p) = [] /\
  queryValue {| props_queryId := props_queryId p; iniQuery := Some "";
                queryFlags := queryFlags p |} = "SELECT * FROM *" /\
  queryValue {| props_queryId := props_queryId p; iniQuery := None;
                queryFlags := queryFlags p |} = "SELECT * FROM *".
Proof.
  pose proof (queryValue_nonempty p) as H.
  split; [by intros E; rewrite E in H|].
  unfold mounted, handleEditorDidMount, checkSQL. simpl. rewrite H. done.
Qed.

(** ** The pending validation timer *)

Lemma check_inv_debounce w : check_inv w -> debounce_inv w.
Proof.
  intros [_ H]. unfold debounce_inv. eapply Forall_impl; [exact H|]. by intros t [? _].
Qed.

Lemma check_inv_frame w w' :
  pendingChecks w' = pendingChecks w -> timeoutAlarm w' = timeoutAlarm w ->
  now w' = now w -> check_inv w -> check_inv w'.
Proof. unfold check_inv. by intros -> -> ->. Qed.

Lemma check_inv_onKeyUp w : check_inv w -> check_inv (onKeyUp w).
Proof.
  intros H. destruct (onKeyUp_effect w (check_inv_debounce w H)) as (Hc & Ha & _ & _ & _ & Hn).
  unfold check_inv. rewrite Hc, Ha, Hn. split; [simpl; lia|].
  repeat constructor; simpl; lia.
Qed.

Lemma check_inv_advance ms w : check_inv w -> check_inv (advance ms w).
Proof.
  intros [Hl Hf]. destruct (advance_effect ms w) as (_ & Hc & Ha & _ & _ & _ & Hn).
  unfold check_inv. rewrite Hc, Ha, Hn. split.
  - etransitivity; [apply length_filter|done].
  - apply Forall_forall. intros t [Hd Ht]%list_elem_of_filter.
    rewrite Forall_forall in Hf. destruct (Hf t Ht) as [? ?]. split; [done|lia].
Qed.

Section Reachable.

Variable JSON_parse : string -> completion json.

Lemma queryCallback_clock u w w' :
  queryCallback JSON_parse u w = Normal w' -> now w' = now w.
Proof.
  destruct u as [r|msg|]; simpl.
  - destruct (JSON_parse (resp_content r)); [|done]. simpl.
    destruct (JSON_parse (resp_labels r)); [|done]. simpl.
    destruct (JSON_parse (resp_bytesProcessed r)); [|done]. simpl.
    by intros [= <-].
  - by intros [= <-].
  - by intros [= <-].
Qed.

Lemma check_inv_deliver h u w : check_inv w -> check_inv (deliver JSON_parse h u w).
Proof.
  intros H. unfold deliver.
  destruct (jobs w !! h) as [j|]; [|done].
  destruct (status j); try done.
  set (w1 := match u with UPending _ => w | _ => _ end).
  assert (H1 : check_inv w1) by (subst w1; by destruct u).
  destruct (runCallback JSON_parse (callback j) u w1) as [w'|] eqn:E; [|done].
  destruct (callback j); simpl in E.
  - destruct (queryCallback_timers _ _ _ _ E) as [Hc Ha].
    by apply (check_inv_frame w1); [| |eapply queryCallback_clock|].
  - destruct u; injection E as <-; done.
Qed.

Lemma check_inv_step w e : check_inv w -> check_inv (step JSON_parse w e).
Proof.
  intros H. destruct e as [|text|h u|ms|]; simpl.
  - unfold handleButtonClick, handleQuery, handleCancel, job_cancel.
    destruct (buttonState (state w)); try done. by destruct (job w).
  - by apply check_inv_onKeyUp.
  - by apply check_inv_deliver.
  - by apply check_inv_advance.
  - done.
Qed.

(** X6.  In every world the component reaches from its mount, whatever the
    clicks, edits, reports and pauses, at most one [checkSQL] timer is
    pending; it is the one [timeoutAlarm] holds, it is not overdue and it
    is due at most 1500 ms from now. *)
Theorem one_pending_validation p es :
  let w := run JSON_parse (mounted p) es in
  (length (pendingChecks w) <= 1)%nat /\
  Forall (fun t => timeoutAlarm w = Some (timerId t) /\
                   now w < deadline t <= now w + 1500) (pendingChecks w).
Proof.
  change (check_inv (run JSON_parse (mounted p) es)).
  unfold run. induction es as [|e es IH] using rev_ind.
  - unfold check_inv, pendingChecks, mounted, handleEditorDidMount, checkSQL.
    destruct (String.eqb _ _); simpl; split; (lia || constructor).
  - rewrite foldl_snoc. by apply check_inv_step.
Qed.

End Reachable.

(** ** The held job *)

Lemma job_inv_frame w w' :
  job w' = job w -> jobs w' = jobs w ->
  (buttonState (state w') = ButtonStates.PENDING ->
   buttonState (state w) = ButtonStates.PENDING) ->
  job_inv w -> job_inv w'.
Proof. unfold job_inv. intros -> -> Hb [H1 H2]. split; [by intros ?%Hb%H1|done]. Qed.

Lemma job_inv_app w w' l :
  job w' = job w -> jobs w' = (jobs w ++ l)%list ->
  (buttonState (state w') = ButtonStates.PENDING ->
   buttonState (state w) = ButtonStates.PENDING) ->
  job_inv w -> job_inv w'.
Proof.
  unfold job_inv. intros -> -> Hb [H1 H2]. split; [by intros ?%Hb%H1|].
  intros h Hh. destruct (H2 h Hh) as (j & Hj & ?). exists j.
  split; [by apply lookup_app_l_Some|done].
Qed.

Lemma job_inv_alter f h0 w :
  (forall j, callback (f j) = callback j /\ request (f j) = request j) ->
  job_inv w -> job_inv (set_jobs (alter f h0 (jobs w)) w).
Proof.
  intros Hf [H1 H2]. split; [done|]. intros h Hh.
  destruct (H2 h Hh) as (j & Hj & Hc & Hr). simpl.
  rewrite list_lookup_alter. destruct (decide (h0 = h)) as [->|]; [|by exists j].
  rewrite Hj. simpl. exists (f j). destruct (Hf j) as [-> ->]. done.
Qed.

Lemma job_inv_handleQuery w : job_inv (handleQuery w).
Proof.
  split; [by eexists|]. intros h [= <-]. eexists.
  split; [apply lookup_snoc_length|done].
Qed.

Lemma job_inv_handleButtonClick w : job_inv w -> job_inv (handleButtonClick w).
Proof.
  intros H. unfold handleButtonClick.
  destruct (buttonState (state w)); try apply job_inv_handleQuery.
  unfold handleCancel. destruct (job w); [|done].
  by apply job_inv_alter.
Qed.

Lemma job_inv_onKeyUp w : job_inv w -> job_inv (onKeyUp w).
Proof.
  apply job_inv_frame; unfold onKeyUp; by destruct (timeoutAlarm w).
Qed.

Lemma job_inv_advance ms w : job_inv w -> job_inv (advance ms w).
Proof.
  destruct (advance_effect ms w) as (Hj & _ & _ & _ & _ & Hh & _).
  destruct (advance_button ms w) as (_ & Hb & _).
  apply (job_inv_app _ _ _ Hh Hj). destruct Hb as [-> | ->]; done.
Qed.

Section Held.

Variable JSON_parse : string -> completion json.

Lemma job_inv_queryCallback u w w' :
  queryCallback JSON_parse u w = Normal w' -> job_inv w -> job_inv w'.
Proof.
  destruct u as [r|msg|]; simpl.
  - destruct (JSON_parse (resp_content r)); [|done]. simpl.
    destruct (JSON_parse (resp_labels r)); [|done]. simpl.
    destruct (JSON_parse (resp_bytesProcessed r)); [|done]. simpl.
    intros [= <-]. by apply job_inv_frame.
  - intros [= <-]. by apply job_inv_frame.
  - intros [= <-]. by apply job_inv_frame.
Qed.

Lemma job_inv_deliver h u w : job_inv w -> job_inv (deliver JSON_parse h u w).
Proof.
  intros H. unfold deliver.
  destruct (jobs w !! h) as [j|]; [|done].
  destruct (status j); try done.
  set (w1 := match u with UPending _ => w | _ => _ end).
  assert (H1 : job_inv w1).
  { subst w1. destruct u; [done| |]; by apply job_inv_alter. }
  destruct (runCallback JSON_parse (callback j) u w1) as [w'|] eqn:E; [|done].
  destruct (callback j); simpl in E.
  - by eapply job_inv_queryCallback.
  - destruct u; injection E as <-; done.
Qed.

Lemma job_inv_step w e : job_inv w -> job_inv (step JSON_parse w e).
Proof.
  intros H. destruct e as [|text|h u|ms|]; simpl.
  - by apply job_inv_handleButtonClick.
  - by apply job_inv_onKeyUp.
  - by apply job_inv_deliver.
  - by apply job_inv_advance.
  - done.
Qed.

Lemma job_inv_run p es : job_inv (run JSON_parse (mounted p) es).
Proof.
  unfold run. induction es as [|e es IH] using rev_ind.
  - unfold mounted, handleEditorDidMount, checkSQL.
    destruct (String.eqb _ _); split; simpl; try done.
  - rewrite foldl_snoc. by apply job_inv_step.
Qed.

(** X7.  In every world the component reaches from its mount, the button
    tells what a click does.  While it shows a caption, Submit or Error, a
    click is [handleQuery]: it creates one job.  While it shows the
    progress circle with Cancel, a job is held, that job is one that
    [handleQuery] created, with [dryRunOnly] false, and a click cancels it
    and creates none.  A held job is always one of [handleQuery]. *)
Theorem button_tells_the_click p es :
  let w := run JSON_parse (mounted p) es in
  match buttonContent (renderButton w) with
  | Caption text =>
      (text = "Submit" \/ text = "Error") /\
      step JSON_parse w Click = handleQuery w /\
      jobs (step JSON_parse w Click) = (jobs w ++ [submission (value w) (props w)])%list
  | PendingStatus text =>
      text = "Cancel" /\
      exists h j,
        job w = Some h /\ jobs w !! h = Some j /\
        callback j = QueryCallback /\ dryRunOnly (request j) = false /\
        step JSON_parse w Click = job_cancel h w /\
        length (jobs (step JSON_parse w Click)) = length (jobs w)
  end /\
  (forall h, job w = Some h ->
     exists j, jobs w !! h = Some j /\ callback j = QueryCallback /\
               dryRunOnly (request j) = false).
Proof.
  intros w. destruct (job_inv_run p es) as [H1 H2]. fold w in H1, H2.
  split; [|done]. unfold renderButton. simpl. unfold handleButtonClick.
  destruct (buttonState (state w)) eqn:Hb; simpl.
  - split; [by left|]. done.
  - split; [done|]. destruct (H1 eq_refl) as [h Hh].
    destruct (H2 h Hh) as (j & Hj & Hc & Hr). exists h, j.
    unfold handleCancel. rewrite Hh. repeat split; try done.
    simpl. by rewrite length_alter.
  - split; [by right|]. done.
Qed.

End Held.

(** ** A failed submission *)




Section Failure.

Variable JSON_parse : string -> completion json.



End Failure.


(** ** Pages of a result *)

Section Pages.

Variable JSON_parse : string -> completion json.





End Pages.


(** ** A burst of key strokes *)

Lemma stroke_then_pause w text d :
  debounce_inv w -> d < 1500 ->
  let w' := advance d (onKeyUp (set_value text w)) in
  debounce_inv w' /\ jobs w' = jobs w /\ props w' = props w.
Proof.
  intros Hinv Hd.
  destruct (onKeyUp_effect (set_value text w)) as (Hc1 & Ha1 & Hj1 & _ & Hp1 & Hn1);
    [done|].
  remember (onKeyUp (set_value text w)) as w1 eqn:E1. clear E1.
  destruct (advance_effect d w1) as (Hj2 & Hc2 & Ha2 & _ & Hp2 & _).
  cbv zeta. simpl in Hc1, Ha1, Hj1, Hp1, Hn1.
  rewrite Hc1, Hn1 in Hj2, Hc2.
  rewrite filter_cons_False, filter_nil in Hj2 by (simpl; lia).
  rewrite filter_cons_True, filter_nil in Hc2 by (simpl; lia).
  split; [|split].
  - unfold debounce_inv. rewrite Hc2, Ha2, Ha1. by repeat constructor.
  - rewrite Hj2, Hj1. unfold spawned.
    destruct (String.eqb (value w1) ""); simpl; by rewrite app_nil_r.
  - by rewrite Hp2, Hp1.
Qed.

Lemma stroke_then_quiet w text d :
  debounce_inv w -> 1500 <= d ->
  jobs (advance d (onKeyUp (set_value text w))) =
    (jobs w ++ if String.eqb text "" then [] else [validation text (props w)])%list.
Proof.
  intros Hinv Hd.
  destruct (onKeyUp_effect (set_value text w)) as (Hc1 & _ & Hj1 & Hv1 & Hp1 & Hn1);
    [done|].
  remember (onKeyUp (set_value text w)) as w1 eqn:E1. clear E1.
  destruct (advance_effect d w1) as (Hj2 & _).
  simpl in Hc1, Hj1, Hv1, Hp1, Hn1.
  rewrite Hj2, Hc1, Hn1, Hj1, Hv1, Hp1.
  rewrite filter_cons_True, filter_nil by (simpl; lia).
  unfold spawned. by destruct (String.eqb text "").
Qed.

Section Burst.

Variable JSON_parse : string -> completion json.

(** X10.  However many key strokes follow one another with pauses of less
    than 1500 ms, none of them creates a job; the last one, followed by
    1500 ms or more, creates exactly one dry run, of the text it left, and
    none when that text is empty. *)
Theorem debounce_burst strokes : forall w text d,
  debounce_inv w -> Forall (fun s => s.2 < 1500) strokes -> 1500 <= d ->
  jobs (run JSON_parse w (burst strokes)) = jobs w /\
  jobs (run JSON_parse w (burst strokes ++ [Edit text; Advance d])) =
    (jobs w ++ if String.eqb text "" then [] else [validation text (props w)])%list.
Proof.
  induction strokes as [|[t p] strokes IH]; intros w text d Hinv HF Hd.
  - split; [done|]. by apply stroke_then_quiet.
  - apply Forall_cons in HF as [Hp HF]. simpl in Hp.
    destruct (stroke_then_pause w t p Hinv Hp) as (Hinv' & Hj & Hpr).
    change (burst ((t, p) :: strokes)) with ([Edit t; Advance p] ++ burst strokes)%list.
    unfold run in *. rewrite <- app_assoc, !foldl_app.
    change (foldl (step JSON_parse) w [Edit t; Advance p])
      with (advance p (onKeyUp (set_value t w))).
    destruct (IH _ text d Hinv' HF Hd) as [H1 H2].
    rewrite foldl_app in H2. by rewrite H1, H2, Hj, Hpr.
Qed.

End Burst.

Lemma debounce_burst_witness :
  let parse := fun _ : string => @Throw json SyntaxError in
  jobs (run parse (mounted exampleProps)
          (burst [("S", 100); ("SE", 1499); ("SEL", 0)])) = jobs (mounted exampleProps) /\
  jobs (run parse (mounted exampleProps)
          (burst [("S", 100); ("SE", 1499); ("SEL", 0)] ++ [Edit "SELECT 2"; Advance 1500])) =
    (jobs (mounted exampleProps) ++
     if String.eqb "SELECT 2" "" then []
     else [validation "SELECT 2" (props (mounted exampleProps))])%list.
Proof.
  intros parse. apply debounce_burst.
  - vm_compute. constructor.
  - repeat constructor; simpl; lia.
  - lia.
Defined.

(** ** What an edit leaves alone *)

Section Edits.

Variable JSON_parse : string -> completion json.


End Edits.

(** X13 (the round trip of [roundtrip_before_timer]) on the example
    editor. *)
Lemma roundtrip_before_timer_witness :
  let parse := fun _ : string => @Throw json SyntaxError in
  let w := mounted exampleProps in
  buttonState (state (run parse w
    [Click; Deliver (length (jobs w)) (UFail "boom"); Click;
     Deliver (S (length (jobs w))) UDone])) = ButtonStates.READY /\
  buttonState (state (run parse w [Click; Deliver (length (jobs w)) UDone]))
    = ButtonStates.READY.
Proof.
  intros parse w. apply (roundtrip_before_timer parse w "boom").
  vm_compute. discriminate.
Defined.


(** ** The slot of the store *)

Lemma fire_frame w t :
  dispatched (fire w t) = dispatched w /\ queryId (fire w t) = queryId w /\
  props (fire w t) = props w.
Proof.
  unfold fire, runTimer, checkSQL. destruct (timerCallback t); simpl; [|done].
  by destruct (String.eqb (value w) "").
Qed.

Lemma advance_frame ms w :
  dispatched (advance ms w) = dispatched w /\ queryId (advance ms w) = queryId w /\
  props (advance ms w) = props w.
Proof.
  unfold advance. simpl. set (w0 := set_timers _ _ w). set (due := filter _ _).
  change (dispatched w) with (dispatched w0). change (queryId w) with (queryId w0).
  change (props w) with (props w0). clearbody w0. clear.
  revert w0. induction due as [|t due IH]; intros w0; [done|]. simpl.
  destruct (IH (fire w0 t)) as (-> & -> & ->). apply fire_frame.
Qed.

Lemma store_foreign (acts : list Action) id id' :
  Forall (fun a => actionId a = id) acts -> id' ≠ id ->
  foldl reduce ∅ acts !! id' = None.
Proof.
  intros H Hne. induction acts as [|a acts IH] using rev_ind; [done|].
  apply Forall_app in H as [H [Ha _]%Forall_cons].
  rewrite foldl_snoc. specialize (IH H).
  destruct a as [r|i|i]; simpl in *; subst.
  - by rewrite lookup_insert_ne.
  - by rewrite lookup_insert_ne.
  - by rewrite lookup_delete_ne.
Qed.

Section Own.

Variable JSON_parse : string -> completion json.

Lemma own_inv_queryCallback p u w w' :
  queryCallback JSON_parse u w = Normal w' -> own_inv p w -> own_inv p w'.
Proof.
  intros E (Hp & Hq & Hd). destruct u as [r|msg|]; simpl in E.
  - destruct (JSON_parse (resp_content r)); [|done]. simpl in E.
    destruct (JSON_parse (resp_labels r)); [|done]. simpl in E.
    destruct (JSON_parse (resp_bytesProcessed r)); [|done]. simpl in E.
    injection E as <-. repeat split; try done. simpl.
    apply Forall_app. split; [done|]. by repeat constructor.
  - injection E as <-. done.
  - injection E as <-. done.
Qed.

Lemma own_inv_deliver p h u w : own_inv p w -> own_inv p (deliver JSON_parse h u w).
Proof.
  intros H. unfold deliver.
  destruct (jobs w !! h) as [j|]; [|done].
  destruct (status j); try done.
  set (w1 := match u with UPending _ => w | _ => _ end).
  assert (H1 : own_inv p w1) by (subst w1; by destruct u).
  destruct (runCallback JSON_parse (callback j) u w1) as [w'|] eqn:E; [|done].
  destruct (callback j); simpl in E.
  - by eapply own_inv_queryCallback.
  - destruct u; injection E as <-; done.
Qed.

Lemma own_inv_step p w e : own_inv p w -> own_inv p (step JSON_parse w e).
Proof.
  intros H. pose proof H as (Hp & Hq & Hd).
  destruct e as [|text|h u|ms|]; cbn [step].
  - unfold handleButtonClick, handleQuery, handleCancel, job_cancel.
    assert (Hsub : Forall (fun a => actionId a = props_queryId p)
                     (dispatched w ++ [resetQueryResult (props_queryId (props w))])%list).
    { apply Forall_app. split; [done|]. repeat constructor. simpl. by rewrite Hp. }
    destruct (buttonState (state w)); [done| |done].
    by destruct (job w).
  - unfold own_inv, onKeyUp. simpl. by destruct (timeoutAlarm w).
  - by apply own_inv_deliver.
  - destruct (advance_frame ms w) as (Ed & Eq & Ep). unfold own_inv.
    by rewrite Ed, Eq, Ep.
  - split; [done|]. split; [done|]. simpl. apply Forall_app. split; [done|].
    by repeat constructor.
Qed.

(** X12.  The component addresses no slot of the store but its own: in
    every world it reaches from its mount, every action it has sent, the
    resets of [handleQuery], the results of the pages and the delete of the
    unmount, carries the query id of its props, which is also the id kept at
    construction.  So the slot of any other query is never written, and
    after the unmount the editor's own slot is gone. *)
Theorem store_own_slot_only p es :
  let w := run JSON_parse (mounted p) es in
  props w = p /\ queryId w = props_queryId p /\
  Forall (fun a => actionId a = props_queryId p) (dispatched w) /\
  (forall id, id ≠ props_queryId p -> store w !! id = None) /\
  store (step JSON_parse w Unmount) !! props_queryId p = None.
Proof.
  intros w.
  assert (H : own_inv p w).
  { subst w. unfold run. induction es as [|e es IH] using rev_ind.
    - unfold own_inv, mounted, handleEditorDidMount, checkSQL.
      destruct (String.eqb _ _); simpl; repeat split; constructor.
    - rewrite foldl_snoc. by apply own_inv_step. }
  destruct H as (Hp & Hq & Hd). repeat split; try done.
  - intros id Hne. by apply (store_foreign _ (props_queryId p)).
  - unfold store. simpl. rewrite foldl_snoc. simpl. rewrite Hq.
    apply lookup_delete_eq.
Qed.

End Own.
